(** * Credit ledger and job lifecycle of the image-generation server

    A shallow embedding of the request handlers and of the background
    worker [processImageGeneration] of the server (src/unnamed/part_000),
    with the Mongoose schemas of src/models.

    Conventions of the embedding.
    - A Mongoose collection is a finite map from [_id] to document
      ([gmap]); the [Transaction] collection, which is only ever appended
      to, is a list in creation order.
    - An [ObjectId] is a natural number; a new document takes an
      identifier that is not yet used in its collection.
    - A [credits] value is a JavaScript Number that holds an integer: it
      is kept as an integer ([Z]) and every sum is rounded to the nearest
      double ([Js.binary64]).  The currency [amount] keeps its binary64
      value ([float]).  [width] and [height], which the worker only tests
      and prints, are kept as [Js.Number].
    - A document is what Mongoose holds when it is saved.  A string is
      kept in UTF-8, a lone surrogate as the three bytes of its code;
      [Js.substring_0] counts UTF-16 code units, as
      [String.prototype.substring] does.
    - [prompt], [packageId] and [paymentMethod] of a request body are
      arbitrary JSON values ([Js.Value]).  The other fields of a body have
      the type of their schema path.
    - [createdAt] timestamps and the JWT access token are not modelled.
    - Every handler runs from its first database read to its last write
      without interleaving; the detached promise that
      [processImageGeneration] returns is kept in the state until it is
      run.  Database operations do not fail.
    - Every write is recorded in a history, from which the states that
      an execution passes through can be replayed. *)

From stdpp Require Import gmap strings list fin_maps pretty sorting.
From Stdlib Require Import ZArith PrimFloat Strings.Byte Strings.Ascii.

Set Warnings "-inexact-float,-clear-no-such-hyp".

Open Scope string_scope.
Open Scope Z_scope.
Open Scope list_scope.

Abbreviation ObjectId := nat (only parsing).

(** ** JavaScript values *)

Module Js.
(** A thrown [Error] object; [message] is empty when it is falsy. *)
Record Error := mkError { message : string }.

(** A value of a JSON request body in a place where the handler expects
    a string.  Of a value that is not a string, the handlers and Mongoose
    look at three things only: whether it is truthy, what [String(v)]
    gives (as a property key and inside a template literal), and what
    the String cast of Mongoose makes of it ([None]: a CastError).  For
    instance [12345] is [other true "12345" (Some "12345")], [false] is
    [other false "false" (Some "false")], and the array [["card"]] is
    [other true "card" None]. *)
Inductive Value :=
| undefined                         (* the field is missing *)
| null
| str (s : string)
| other (is_truthy : bool) (shown : string) (cast : option string).

Definition truthy (v : Value) : bool :=
  match v with
  | undefined | null => false
  | str s => bool_decide (s ≠ "")
  | other b _ _ => b
  end.

(** [String(v)] *)
Definition toString (v : Value) : string :=
  match v with
  | undefined => "undefined"
  | null => "null"
  | str s => s
  | other _ s _ => s
  end.

(** What a schema path of type String stores for a value. *)
Inductive Cast :=
| cast_error                        (* validation fails: [save()] rejects *)
| unset                             (* undefined or null: nothing is stored *)
| cast_to (s : string).

Definition castString (v : Value) : Cast :=
  match v with
  | undefined | null => unset
  | str s => cast_to s
  | other _ _ (Some s) => cast_to s
  | other _ _ None => cast_error
  end.

(** A Number in a place where the code only tests it with [||] and prints
    it: [width] and [height]. *)
Record Number := mkNumber {
  falsy : bool;                     (* 0, -0 or NaN *)
  Number_toString : string;         (* [String(n)], e.g. "1e+21" or "0.5" *)
}.

(** An integer of at most 21 digits, which prints in plain decimal. *)
Definition int (z : Z) : Number := mkNumber (bool_decide (z = 0)) (pretty z).

(** The double nearest to the integer [z], ties to even: [z] itself up
    to 2^53 in absolute value, a multiple of a power of two beyond.  It
    is the value of [a + b] for a stored balance [a] and an integer [b]
    of the handlers (1, -1, the credits of a package) whose exact sum is
    [z]. *)
Definition binary64 (z : Z) : Z :=
  let e := Z.log2 (Z.abs z) - 52 in
  if e <=? 0 then z
  else
    let q := Z.abs z / 2 ^ e in
    let r := Z.abs z mod 2 ^ e in
    let half := 2 ^ (e - 1) in
    let q' := if r <? half then q
              else if half <? r then q + 1
              else if Z.even q then q else q + 1 in
    Z.sgn z * (q' * 2 ^ e).

(** The number of UTF-16 code units of the character that starts with
    the byte [b] of a UTF-8 string: none for a continuation byte, two for
    the first byte of a four-byte sequence. *)
Definition units (b : ascii) : nat :=
  let n := N_of_ascii b in
  if (n <? 128)%N then 1%nat
  else if (n <? 192)%N then 0%nat
  else if (n <? 240)%N then 1%nat
  else 2%nat.

(** The high surrogate of the character of four bytes [b0 b1 b2 b3], as
    the three bytes of its code. *)
Definition high_surrogate (b0 : ascii) (rest : string) : string :=
  let byte i := default 0%N (N_of_ascii <$> String.get i rest) in
  let cp := ((N_of_ascii b0 mod 8) * 262144 + (byte 0%nat mod 64) * 4096
             + (byte 1%nat mod 64) * 64 + byte 2%nat mod 64)%N in
  let hs := (55296 + (cp - 65536) / 1024)%N in
  String (ascii_of_N 237)
    (String (ascii_of_N (128 + (hs / 64) mod 64))
       (String (ascii_of_N (128 + hs mod 64)) "")).

(** [s.substring(0, n)]: the first [n] UTF-16 code units of [s].  A
    character outside the basic plane counts for two, and is cut to its
    high surrogate when only one unit is left. *)
Fixpoint substring_0 (n : nat) (s : string) : string :=
  match s with
  | "" => ""
  | String b s' =>
      match units b, n with
      | O, _ => String b (substring_0 n s')
      | _, O => ""
      | 1%nat, S n' => String b (substring_0 n' s')
      | _, 1%nat => high_surrogate b s'
      | _, S (S n') => String b (substring_0 n' s')
      end
  end.
End Js.

(** ** Schemas *)

Module User.
(** Modelled from the spec: models/User.js is not part of the sources;
    the fields are the ones the handlers read and write, and [credits]
    is the integer balance of the spec's data model, held in a Number. *)
Record t := mk {
  email : string;
  password : string;
  firstName : string;
  lastName : string;
  credits : Z;
}.

Definition set_credits (c : Z) (u : t) : t :=
  mk (email u) (password u) (firstName u) (lastName u) c.
End User.

Module Job.
(** [status] enum of models/Job.js *)
Inductive Status := pending | processing | completed | failed.

(** The nested paths [parameters], [result] and [error] are part of every
    document: a field that has not been set is [None], and the array
    [result.images] is empty until it is set. *)
Record Parameters := mkParameters {
  width : option Js.Number;
  height : option Js.Number;
}.

Record Image := mkImage {
  url : string;
  image_width : Js.Number;
  image_height : Js.Number;
  filename : option string;
}.

Record Result := mkResult {
  images : list Image;
  timeTaken : option Z;
  result_model : option string;
  note : option string;
}.

Record Error := mkError { message : option string }.

Record t := mk {
  userId : ObjectId;
  prompt : string;
  negativePrompt : option string;
  model : string;
  parameters : Parameters;
  status : Status;
  result : Result;
  error : Error;
}.

Definition no_parameters : Parameters := mkParameters None None.
Definition no_result : Result := mkResult [] None None None.
Definition no_error : Error := mkError None.

Definition set_status (s : Status) (j : t) : t :=
  mk (userId j) (prompt j) (negativePrompt j) (model j) (parameters j)
     s (result j) (error j).
Definition set_result (r : Result) (j : t) : t :=
  mk (userId j) (prompt j) (negativePrompt j) (model j) (parameters j)
     (status j) r (error j).
Definition set_error (e : Error) (j : t) : t :=
  mk (userId j) (prompt j) (negativePrompt j) (model j) (parameters j)
     (status j) (result j) e.

#[global] Instance Status_eq_dec : EqDecision Status.
Proof. solve_decision. Defined.
End Job.

Module Transaction.
(** [type] and [status] enums of models/Transaction.js *)
Inductive Type_ := purchase | usage | refund | bonus.
Inductive Status := pending | completed | failed.

Record Metadata := mkMetadata {
  jobId : option ObjectId;
  packageId : option string;
  paymentMethod : option string;
}.

Record t := mk {
  userId : ObjectId;
  type : Type_;
  amount : float;
  credits : Z;
  description : string;
  status : Status;
  metadata : Metadata;
}.

Definition no_metadata : Metadata := mkMetadata None None None.

#[global] Instance Type_eq_dec : EqDecision Type_.
Proof. solve_decision. Defined.
End Transaction.

(** ** The state: the three collections and the detached worker promises

    [detached] holds the jobs whose [processImageGeneration] promise has
    been created by a submission and has not run yet. *)

Record State := mkState {
  users : gmap nat User.t;
  jobs : gmap nat Job.t;
  transactions : list Transaction.t;
  detached : gset nat;
}.

(** What a handler does to the state, in program order. *)
Inductive Event :=
| SaveUser (id : ObjectId) (u : User.t)          (* user.save() *)
| SaveJob (id : ObjectId) (j : Job.t)            (* job.save() *)
| CreateTransaction (t : Transaction.t)          (* Transaction.create(..) *)
| Spawn (jobId : ObjectId)                       (* processImageGeneration(id), not awaited *)
| Start (jobId : ObjectId)                       (* the detached promise starts to run *)
| Attempt (jobId : ObjectId) (n : nat) (modelId : string).
                                                 (* "Attempt n/3 with model: modelId" *)

Definition apply_event (s : State) (e : Event) : State :=
  match e with
  | SaveUser id u => mkState (<[id := u]> (users s)) (jobs s) (transactions s) (detached s)
  | SaveJob id j => mkState (users s) (<[id := j]> (jobs s)) (transactions s) (detached s)
  | CreateTransaction t => mkState (users s) (jobs s) (transactions s ++ [t]) (detached s)
  | Spawn id => mkState (users s) (jobs s) (transactions s) ({[id]} ∪ detached s)
  | Start id => mkState (users s) (jobs s) (transactions s) (detached s ∖ {[id]})
  | Attempt _ _ _ => s
  end.

Definition replay (s : State) (es : list Event) : State := foldl apply_event s es.

(** The state together with everything that has happened, oldest first. *)
Record World := mkWorld {
  state : State;
  history : list Event;
}.

Definition empty_state : State := mkState ∅ ∅ [] ∅.
Definition initial : World := mkWorld empty_state [].

(** ** A state monad for the handlers *)

Definition M (A : Type) : Type := World → A * World.

#[global] Instance M_ret : MRet M := λ A a w, (a, w).
#[global] Instance M_bind : MBind M :=
  λ A B k m w, let '(a, w') := m w in k a w'.

Definition gets {A} (f : State → A) : M A := λ w, (f (state w), w).
Definition emit (e : Event) : M unit :=
  λ w, (tt, mkWorld (apply_event (state w) e) (history w ++ [e])).

Definition exec {A} (m : M A) (w : World) : World := snd (m w).
Definition eval {A} (m : M A) (w : World) : A := fst (m w).

(** ** Database reads *)

Definition User_findById (id : ObjectId) : M (option User.t) :=
  gets (λ s, users s !! id).

Definition Job_findById (id : ObjectId) : M (option Job.t) :=
  gets (λ s, jobs s !! id).

(** [User.findOne({ email })] *)
Definition User_findOne (email : string) : M (option (ObjectId * User.t)) :=
  gets (λ s, List.find (λ p, bool_decide (User.email p.2 = email))
                       (map_to_list (users s))).

(** The [_id] given to a document by [new User(..)] and [new Job(..)]. *)
Definition new_user_id : M ObjectId := gets (λ s, fresh (dom (users s))).
Definition new_job_id : M ObjectId := gets (λ s, fresh (dom (jobs s))).

(** ** HTTP responses *)

Inductive Body :=
| error_ (msg : string)
| registered (id : ObjectId) (user : User.t)
| accepted (jobId : ObjectId) (status : Job.Status)
| purchased (newBalance creditsAdded : Z).

Record Response := json { code : nat; body : Body }.

(** JavaScript's [a || b] on a string that may be undefined. *)
Definition or_else (a : option string) (b : string) : string :=
  match a with
  | Some s => if decide (s = "") then b else s
  | None => b
  end.

(** [job.parameters?.width || 1024] *)
Definition dimension (p : Job.Parameters)
    (field : Job.Parameters → option Js.Number) : Js.Number :=
  match field p with
  | Some n => if Js.falsy n then Js.int 1024 else n
  | None => Js.int 1024
  end.

(** ** middleware/auth.js: the request carries the [userId] of its token *)

Definition authenticate (userId : ObjectId)
    (next : ObjectId * User.t → M Response) : M Response :=
  user ← User_findById userId;
  match user with
  | None => mret (json 401 (error_ "User not found"))
  | Some user => next (userId, user)
  end.

(** ** POST /api/auth/register *)

Record RegisterBody := mkRegisterBody {
  reg_email : string;
  reg_password : string;
  reg_firstName : string;
  reg_lastName : string;
}.

Definition welcome_bonus (userId : ObjectId) : Transaction.t :=
  Transaction.mk userId Transaction.bonus 0%float 100
    "Welcome bonus credits" Transaction.completed Transaction.no_metadata.

Definition register (body : RegisterBody) : M Response :=
  existingUser ← User_findOne (reg_email body);
  match existingUser with
  | Some _ => mret (json 400 (error_ "Email already registered"))
  | None =>
      id ← new_user_id;
      let user := User.mk (reg_email body) (reg_password body)
                    (reg_firstName body) (reg_lastName body) 100 in
      emit (SaveUser id user);;
      emit (CreateTransaction (welcome_bonus id));;
      mret (json 201 (registered id user))
  end.

(** ** POST /api/images/generate

    [prompt] is any value of the body; [model], [negativePrompt] and
    [parameters] have the types of the Job schema. *)

Record GenerateBody := mkGenerateBody {
  gen_prompt : Js.Value;
  gen_model : option string;
  gen_parameters : option Job.Parameters;
  gen_negativePrompt : option string;
}.

(** The [prompt] that [new Job(..)] holds: the String cast of the value. *)
Definition stored_prompt (prompt : Js.Value) : string :=
  match Js.castString prompt with
  | Js.cast_to s => s
  | _ => ""
  end.

(** [new Job({ userId, prompt, negativePrompt, model: model || .., parameters,
    status: 'pending' })] *)
Definition new_job (userId : ObjectId) (body : GenerateBody) : Job.t :=
  Job.mk userId (stored_prompt (gen_prompt body)) (gen_negativePrompt body)
    (or_else (gen_model body) "stabilityai/stable-diffusion-xl-base-1.0")
    (default Job.no_parameters (gen_parameters body))
    Job.pending Job.no_result Job.no_error.

Definition usage_entry (userId jobId : ObjectId) (prompt : string) : Transaction.t :=
  Transaction.mk userId Transaction.usage 0%float (-1)
    ("Image generation: " +:+ Js.substring_0 50 prompt +:+ "...")
    Transaction.completed
    (Transaction.mkMetadata (Some jobId) None None).

(** [job.save()] validates the document first: it rejects, and the
    handler answers 500, when the prompt cannot be cast to a string or is
    cast to the empty string ([required]).  Once the job and the debited
    balance are saved, [prompt.substring] throws for a prompt that is not
    a string: the handler answers 500 with neither ledger entry nor
    worker. *)
Definition generate (body : GenerateBody) (req_user : ObjectId * User.t) : M Response :=
  if negb (Js.truthy (gen_prompt body)) then
    mret (json 400 (error_ "Prompt is required"))
  else if User.credits req_user.2 <? 1 then
    mret (json 402 (error_ "Insufficient credits"))
  else if decide (stored_prompt (gen_prompt body) = "") then
    mret (json 500 (error_ "Failed to create job"))
  else
    jobId ← new_job_id;
    emit (SaveJob jobId (new_job req_user.1 body));;
    let user := User.set_credits (Js.binary64 (User.credits req_user.2 - 1))
                  req_user.2 in
    emit (SaveUser req_user.1 user);;
    match gen_prompt body with
    | Js.str prompt =>
        emit (CreateTransaction (usage_entry req_user.1 jobId prompt));;
        emit (Spawn jobId);;
        mret (json 202 (accepted jobId Job.pending))
    | _ => mret (json 500 (error_ "Failed to create job"))
    end.

(** ** GET /api/billing/packages and POST /api/billing/purchase *)

Record Listing := mkListing {
  listing_id : string; name : string; listed_credits : Z; listed_price : float;
  popular : bool; listed_bonus : option Z;
}.

Definition billing_packages : list Listing :=
  [ mkListing "starter" "Starter Pack" 50 9.99%float false None;
    mkListing "pro" "Pro Pack" 200 29.99%float true (Some 20);
    mkListing "ultimate" "Ultimate Pack" 500 59.99%float false (Some 100) ].

Record Package := mkPackage { credits : Z; price : float }.

(** The own properties of the object literal [packages]. *)
Definition packages (packageId : string) : option Package :=
  if decide (packageId = "starter") then Some (mkPackage 50 9.99%float)
  else if decide (packageId = "pro") then Some (mkPackage 220 29.99%float)
  else if decide (packageId = "ultimate") then Some (mkPackage 600 59.99%float)
  else None.

(** [packages[packageId]] is also defined, without a [credits] property,
    for the property names every object inherits.  [req.user.credits]
    then becomes NaN, which [save()] rejects: the handler answers 500 and
    nothing is written. *)
Definition Object_prototype : list string :=
  [ "constructor"; "__proto__"; "hasOwnProperty"; "isPrototypeOf";
    "propertyIsEnumerable"; "toLocaleString"; "toString"; "valueOf";
    "__defineGetter__"; "__defineSetter__"; "__lookupGetter__";
    "__lookupSetter__" ].

Record PurchaseBody := mkPurchaseBody {
  pur_packageId : Js.Value;
  pur_paymentMethod : Js.Value;
}.

(** What a [metadata] path of type String stores; [None] when the value
    cannot be cast. *)
Definition metadata_string (v : Js.Value) : option (option string) :=
  match Js.castString v with
  | Js.cast_error => None
  | Js.unset => Some None
  | Js.cast_to s => Some (Some s)
  end.

(** The document that [Transaction.create] validates and stores; [None]
    when [metadata.packageId] or [metadata.paymentMethod] cannot be cast
    and the creation is rejected. *)
Definition purchase_entry (userId : ObjectId) (pkg : Package)
    (body : PurchaseBody) : option Transaction.t :=
  packageId ← metadata_string (pur_packageId body);
  paymentMethod ← metadata_string (pur_paymentMethod body);
  Some (Transaction.mk userId Transaction.purchase (price pkg) (credits pkg)
          ("Purchased " +:+ Js.toString (pur_packageId body) +:+ " package")
          Transaction.completed
          (Transaction.mkMetadata None packageId paymentMethod)).

(** [packages[packageId]] takes [String(packageId)] as the property key.
    The balance is saved before the ledger entry is created: when the
    creation is rejected, the handler answers 500 and the credits stay. *)
Definition purchase (body : PurchaseBody) (req_user : ObjectId * User.t) : M Response :=
  let key := Js.toString (pur_packageId body) in
  match packages key with
  | None =>
      if bool_decide (key ∈ Object_prototype) then
        mret (json 500 (error_ "Purchase failed"))
      else
        mret (json 400 (error_ "Invalid package"))
  | Some pkg =>
      let user := User.set_credits (Js.binary64 (User.credits req_user.2 + credits pkg))
                    req_user.2 in
      emit (SaveUser req_user.1 user);;
      match purchase_entry req_user.1 pkg body with
      | Some entry =>
          emit (CreateTransaction entry);;
          mret (json 200 (purchased (User.credits user) (credits pkg)))
      | None => mret (json 500 (error_ "Purchase failed"))
      end
  end.

(** ** The generation worker *)

Abbreviation Blob := string (only parsing).

Record TextToImageArgs := mkArgs {
  args_model : string;
  inputs : string;
  negative_prompt : string;
}.

(** How one call of [hf.textToImage] settles. *)
Inductive Settlement :=
| fulfils (blob : Blob)
| rejects (err : Js.Error)
| hangs.                      (* not settled within 60 seconds *)

(** The provider, by attempt number (1, 2, 3) and arguments. *)
Definition Provider := nat → TextToImageArgs → Settlement.

(** [Promise.race] of the call against the 60 s timer. *)
Definition race (s : Settlement) : Js.Error + Blob :=
  match s with
  | fulfils blob => inr blob
  | rejects err => inl err
  | hangs => inl (Js.mkError "Request timeout after 60s")
  end.

Record Env := mkEnv {
  hf : option Provider;          (* null when HUGGINGFACE_API_KEY is empty *)
  writeFileSync : string → Blob → option Js.Error;   (* Some e: throws e *)
  now : nat → Z;                 (* the successive readings of Date.now() *)
  BASE_URL : option string;
  PORT : string;
  imagesDir : string;
}.

Definition FLUX : string := "black-forest-labs/FLUX.1-schnell".
Definition SD21 : string := "stabilityai/stable-diffusion-2-1".
Definition SD15 : string := "runwayml/stable-diffusion-v1-5".
Definition OPENJOURNEY : string := "prompthero/openjourney-v4".

(** The first model, from the job's requested [model]. *)
Definition initial_model (model : string) : string :=
  if decide (model = "dalle-3") then FLUX
  else if decide (model = "midjourney") then OPENJOURNEY
  else if decide (model = "stability-sd-3") then SD21
  else FLUX.

(** The model switch in the [catch] of the retry loop. *)
Definition fallback (modelId : string) : string :=
  if decide (modelId = FLUX) then SD21
  else if decide (modelId = SD21) then SD15
  else modelId.

Record Loop := mkLoop {
  imageBlob : option Blob;
  lastError : option Js.Error;
  modelId : string;
}.

(** [while (retries > 0) { try { .. break } catch (err) { .. } }] *)
Fixpoint retry_loop (textToImage : Provider) (jobId : ObjectId) (job : Job.t)
    (retries : nat) (modelId : string) (lastError : option Js.Error) : M Loop :=
  match retries with
  | O => mret (mkLoop None lastError modelId)
  | S retries' =>
      emit (Attempt jobId (4 - retries) modelId);;
      let args := mkArgs modelId (Job.prompt job)
                    (or_else (Job.negativePrompt job) "") in
      match race (textToImage (4 - retries)%nat args) with
      | inr blob => mret (mkLoop (Some blob) lastError modelId)
      | inl err =>
          let modelId' :=
            if decide (0 < retries')%nat then fallback modelId else modelId in
          retry_loop textToImage jobId job retries' modelId' (Some err)
      end
  end.

Definition placeholder (jobId : ObjectId) (job : Job.t) : Job.Result :=
  let w := dimension (Job.parameters job) Job.width in
  let h := dimension (Job.parameters job) Job.height in
  Job.mkResult
    [ Job.mkImage
        ("https://picsum.photos/seed/" +:+ pretty jobId +:+ "/"
           +:+ Js.Number_toString w +:+ "/" +:+ Js.Number_toString h)
        w h None ]
    (Some 1000) None (Some "Add HUGGINGFACE_API_KEY to .env for real generation").

Definition generated (env : Env) (job : Job.t) (filename modelId : string)
    (timeTaken : Z) : Job.Result :=
  let baseUrl := or_else (BASE_URL env) ("http://localhost:" +:+ PORT env) in
  Job.mkResult
    [ Job.mkImage (baseUrl +:+ "/generated-images/" +:+ filename)
        (dimension (Job.parameters job) Job.width)
        (dimension (Job.parameters job) Job.height)
        (Some filename) ]
    (Some timeTaken) (Some modelId) None.

(** The [try] block: [None] when it returns, [Some error] when it throws. *)
Definition generation_attempt (env : Env) (jobId : ObjectId) : M (option Js.Error) :=
  job ← Job_findById jobId;
  match job with
  | None => mret None
  | Some job =>
      let job := Job.set_status Job.processing job in
      emit (SaveJob jobId job);;
      match hf env with
      | None =>
          let job := Job.set_result (placeholder jobId job)
                       (Job.set_status Job.completed job) in
          emit (SaveJob jobId job);;
          mret None
      | Some textToImage =>
          let startTime := now env 0 in
          loop ← retry_loop textToImage jobId job 3
                   (initial_model (Job.model job)) None;
          match imageBlob loop with
          | None =>
              mret (Some (default
                            (Js.mkError "Failed to generate image after retries")
                            (lastError loop)))
          | Some blob =>
              let filename := "image-" +:+ pretty jobId +:+ "-"
                                +:+ pretty (now env 1) +:+ ".png" in
              let filepath := imagesDir env +:+ "/" +:+ filename in
              match writeFileSync env filepath blob with
              | Some thrown => mret (Some thrown)
              | None =>
                  let timeTaken := now env 2 - startTime in
                  let job := Job.set_result
                               (generated env job filename (modelId loop) timeTaken)
                               (Job.set_status Job.completed job) in
                  emit (SaveJob jobId job);;
                  mret None
              end
          end
      end
  end.

Definition refund_entry (userId jobId : ObjectId) : Transaction.t :=
  Transaction.mk userId Transaction.refund 0%float 1
    "Refund for failed generation" Transaction.completed
    (Transaction.mkMetadata (Some jobId) None None).

(** [error.message || 'Image generation failed'] *)
Definition failure_message (error : Js.Error) : string :=
  or_else (Some (Js.message error)) "Image generation failed".

(** The [catch] block. *)
Definition generation_failed (jobId : ObjectId) (error : Js.Error) : M unit :=
  job ← Job_findById jobId;
  match job with
  | None => mret tt
  | Some job =>
      let job := Job.set_error (Job.mkError (Some (failure_message error)))
                   (Job.set_status Job.failed job) in
      emit (SaveJob jobId job);;
      user ← User_findById (Job.userId job);
      match user with
      | None => mret tt
      | Some user =>
          let user := User.set_credits (Js.binary64 (User.credits user + 1)) user in
          emit (SaveUser (Job.userId job) user);;
          emit (CreateTransaction (refund_entry (Job.userId job) jobId))
      end
  end.

Definition processImageGeneration (env : Env) (jobId : ObjectId) : M unit :=
  thrown ← generation_attempt env jobId;
  match thrown with
  | None => mret tt
  | Some error => generation_failed jobId error
  end.

(** ** The server as a sequence of operations *)

Inductive Op :=
| POST_register (body : RegisterBody)
| POST_generate (userId : ObjectId) (body : GenerateBody)
| POST_purchase (userId : ObjectId) (body : PurchaseBody)
| worker (env : Env) (jobId : ObjectId).   (* a detached promise runs *)

Definition run_worker (env : Env) (jobId : ObjectId) : M unit :=
  promises ← gets detached;
  if decide (jobId ∈ promises) then
    emit (Start jobId);;
    processImageGeneration env jobId
  else mret tt.

Definition step (op : Op) : M unit :=
  match op with
  | POST_register body => register body;; mret tt
  | POST_generate userId body => authenticate userId (generate body);; mret tt
  | POST_purchase userId body => authenticate userId (purchase body);; mret tt
  | worker env jobId => run_worker env jobId
  end.

Definition run (ops : list Op) (w : World) : World :=
  foldl (λ w op, exec (step op) w) w ops.

Definition reachable (w : World) : Prop := ∃ ops, w = run ops initial.

(** ** Observations on a world *)

(** The world after the events [es] have happened in [w]. *)
Definition push (w : World) (es : list Event) : World :=
  mkWorld (replay (state w) es) (history w ++ es).

(** The events that running [m] in [w] adds to the history. *)
Definition during {A} (m : M A) (w : World) : list Event :=
  drop (length (history w)) (history (exec m w)).

(** The sum of the [credits] deltas of a user's ledger entries. *)
Definition ledger_sum (userId : ObjectId) (l : list Transaction.t) : Z :=
  foldr Z.add 0
    (Transaction.credits <$> filter (λ t, Transaction.userId t = userId) l).

(** The [refund] entries tagged with a job. *)
Definition refunds (jobId : ObjectId) (l : list Transaction.t) : list Transaction.t :=
  filter (λ t, Transaction.type t = Transaction.refund
               ∧ Transaction.jobId (Transaction.metadata t) = Some jobId) l.

(** The [usage] entries tagged with a job. *)
Definition debits (jobId : ObjectId) (l : list Transaction.t) : list Transaction.t :=
  filter (λ t, Transaction.type t = Transaction.usage
               ∧ Transaction.jobId (Transaction.metadata t) = Some jobId) l.

(** The status values persisted for a job, oldest first. *)
Definition statuses (jobId : ObjectId) (h : list Event) : list Job.Status :=
  omap (λ e, match e with
             | SaveJob id j => if decide (id = jobId) then Some (Job.status j) else None
             | _ => None
             end) h.

(** The models of the attempts made for a job, oldest first. *)
Definition attempts (jobId : ObjectId) (h : list Event) : list string :=
  omap (λ e, match e with
             | Attempt id _ m => if decide (id = jobId) then Some m else None
             | _ => None
             end) h.

(** The models the loop goes through when every attempt fails. *)
Fixpoint chain (retries : nat) (modelId : string) : list string :=
  match retries with
  | O => []
  | S retries' =>
      modelId :: chain retries'
                   (if decide (0 < retries')%nat then fallback modelId else modelId)
  end.

Fixpoint attempt_log (jobId : ObjectId) (retries : nat) (ms : list string)
    {struct ms} : list Event :=
  match ms, retries with
  | m :: ms', S retries' =>
      Attempt jobId (4 - retries) m :: attempt_log jobId retries' ms'
  | _, _ => []
  end.

(** No two consecutive elements are equal. *)
Definition no_repeat (l : list string) : Prop :=
  ∀ i a b, l !! i = Some a → l !! S i = Some b → a ≠ b.

Definition always_fails (textToImage : Provider) : Prop :=
  ∀ n args, ∃ err, race (textToImage n args) = inl err.

(** ** What each operation does, case by case *)

(** A result as the worker stores it: one image and the time taken. *)
Definition stored_result (r : Job.Result) : Prop :=
  ∃ image timeTaken,
    Job.images r = [image] ∧ Job.timeTaken r = Some timeTaken.

Definition new_user (body : RegisterBody) : User.t :=
  User.mk (reg_email body) (reg_password body) (reg_firstName body)
    (reg_lastName body) 100.

Definition failed_job (error : Js.Error) (j : Job.t) : Job.t :=
  Job.set_error (Job.mkError (Some (failure_message error)))
    (Job.set_status Job.failed (Job.set_status Job.processing j)).

Definition compensation (s : State) (jobId : ObjectId) (j : Job.t) : list Event :=
  match users s !! Job.userId j with
  | None => []
  | Some u =>
      [ SaveUser (Job.userId j)
          (User.set_credits (Js.binary64 (User.credits u + 1)) u);
        CreateTransaction (refund_entry (Job.userId j) jobId) ]
  end.

Inductive Outcome (w : World) : Op → list Event → Prop :=
| register_taken body p :
    eval (User_findOne (reg_email body)) w = Some p →
    Outcome w (POST_register body) []
| register_created body id :
    eval (User_findOne (reg_email body)) w = None →
    id = fresh (dom (users (state w))) →
    Outcome w (POST_register body)
      [ SaveUser id (new_user body); CreateTransaction (welcome_bonus id) ]
| generate_unauthenticated userId body :
    users (state w) !! userId = None →
    Outcome w (POST_generate userId body) []
| generate_rejected userId u body :
    users (state w) !! userId = Some u →
    Js.truthy (gen_prompt body) = false ∨ User.credits u < 1
    ∨ stored_prompt (gen_prompt body) = "" →
    Outcome w (POST_generate userId body) []
| generate_accepted userId u body prompt jobId :
    users (state w) !! userId = Some u →
    gen_prompt body = Js.str prompt →
    prompt ≠ "" →
    1 ≤ User.credits u →
    jobId = fresh (dom (jobs (state w))) →
    Outcome w (POST_generate userId body)
      [ SaveJob jobId (new_job userId body);
        SaveUser userId (User.set_credits (Js.binary64 (User.credits u - 1)) u);
        CreateTransaction (usage_entry userId jobId prompt);
        Spawn jobId ]
| purchase_unauthenticated userId body :
    users (state w) !! userId = None →
    Outcome w (POST_purchase userId body) []
| purchase_rejected userId u body :
    users (state w) !! userId = Some u →
    packages (Js.toString (pur_packageId body)) = None →
    Outcome w (POST_purchase userId body) []
| purchase_done userId u body pkg entry :
    users (state w) !! userId = Some u →
    packages (Js.toString (pur_packageId body)) = Some pkg →
    purchase_entry userId pkg body = Some entry →
    Outcome w (POST_purchase userId body)
      [ SaveUser userId
          (User.set_credits (Js.binary64 (User.credits u + credits pkg)) u);
        CreateTransaction entry ]
| worker_not_detached env jobId :
    jobId ∉ detached (state w) →
    Outcome w (worker env jobId) []
| worker_no_job env jobId :
    jobId ∈ detached (state w) →
    jobs (state w) !! jobId = None →
    Outcome w (worker env jobId) [ Start jobId ]
| worker_completed env jobId j ms r :
    jobId ∈ detached (state w) →
    jobs (state w) !! jobId = Some j →
    ms `prefix_of` chain 3 (initial_model (Job.model j)) →
    stored_result r →
    Outcome w (worker env jobId)
      ([ Start jobId; SaveJob jobId (Job.set_status Job.processing j) ]
       ++ attempt_log jobId 3 ms
       ++ [ SaveJob jobId (Job.set_result r (Job.set_status Job.completed
                             (Job.set_status Job.processing j))) ])
| worker_failed env jobId j ms error :
    jobId ∈ detached (state w) →
    jobs (state w) !! jobId = Some j →
    ms `prefix_of` chain 3 (initial_model (Job.model j)) →
    Outcome w (worker env jobId)
      ([ Start jobId; SaveJob jobId (Job.set_status Job.processing j) ]
       ++ attempt_log jobId 3 ms
       ++ [ SaveJob jobId (failed_job error j) ]
       ++ compensation (state w) jobId j)
| generate_crashed userId u body jobId :
    users (state w) !! userId = Some u →
    (∀ prompt, gen_prompt body ≠ Js.str prompt) →
    stored_prompt (gen_prompt body) ≠ "" →
    1 ≤ User.credits u →
    jobId = fresh (dom (jobs (state w))) →
    Outcome w (POST_generate userId body)
      [ SaveJob jobId (new_job userId body);
        SaveUser userId (User.set_credits (Js.binary64 (User.credits u - 1)) u) ]
| purchase_crashed userId u body pkg :
    users (state w) !! userId = Some u →
    packages (Js.toString (pur_packageId body)) = Some pkg →
    purchase_entry userId pkg body = None →
    Outcome w (POST_purchase userId body)
      [ SaveUser userId
          (User.set_credits (Js.binary64 (User.credits u + credits pkg)) u) ].

(** ** Invariants of the reachable worlds *)

(** The state is the replay of the history. *)
Definition consistent (w : World) : Prop :=
  state w = replay empty_state (history w).

(** No stored balance is negative. *)
Definition solvent (s : State) : Prop :=
  ∀ userId u, users s !! userId = Some u → 0 ≤ User.credits u.

(** Every ledger entry belongs to a stored user, and every stored balance
    is the sum of the user's ledger entries. *)
Definition balanced (s : State) : Prop :=
  (∀ t, t ∈ transactions s → is_Some (users s !! Transaction.userId t))
  ∧ (∀ userId u, users s !! userId = Some u →
        User.credits u = ledger_sum userId (transactions s)).

(** No stored balance exceeds [cap]. *)
Definition capped (cap : Z) (s : State) : Prop :=
  ∀ userId u, users s !! userId = Some u → User.credits u ≤ cap.

(** The owner of every job is a stored user. *)
Definition owned (s : State) : Prop :=
  ∀ jobId j, jobs s !! jobId = Some j → is_Some (users s !! Job.userId j).

(** Where a job is in its life, with what has been recorded for it.  A
    pending job without a [usage] entry is one whose submission threw
    after the debit: its worker has not been started and never will be. *)
Definition lifecycle (w : World) (jobId : ObjectId) : Prop :=
  let s := state w in
  let h := history w in
  match jobs s !! jobId with
  | None =>
      (jobId ∉ detached s) ∧ statuses jobId h = [] ∧ attempts jobId h = []
      ∧ debits jobId (transactions s) = [] ∧ refunds jobId (transactions s) = []
  | Some j =>
      attempts jobId h `prefix_of` chain 3 (initial_model (Job.model j))
      ∧ (debits jobId (transactions s)
           = [usage_entry (Job.userId j) jobId (Job.prompt j)]
         ∨ (debits jobId (transactions s) = [] ∧ Job.status j = Job.pending))
      ∧ match Job.status j with
        | Job.pending =>
            (jobId ∈ detached s ↔ debits jobId (transactions s) ≠ [])
            ∧ statuses jobId h = [Job.pending]
            ∧ attempts jobId h = [] ∧ refunds jobId (transactions s) = []
        | Job.processing => False
        | Job.completed =>
            (jobId ∉ detached s)
            ∧ statuses jobId h = [Job.pending; Job.processing; Job.completed]
            ∧ refunds jobId (transactions s) = []
        | Job.failed =>
            (jobId ∉ detached s)
            ∧ statuses jobId h = [Job.pending; Job.processing; Job.failed]
            ∧ refunds jobId (transactions s) = [refund_entry (Job.userId j) jobId]
            ∧ ∃ msg, Job.error j = Job.mkError (Some msg) ∧ msg ≠ ""
        end
  end.

Definition Inv (w : World) : Prop :=
  consistent w ∧ solvent (state w) ∧ owned (state w) ∧ ∀ jobId, lifecycle w jobId.

(** ** The ordering that job submission is expected to follow

    In every state that the handler passes through, a job record that
    the request has created comes with the debit of the balance and with
    its [usage] ledger entry. *)
Definition debit_precedes_job (w : World) (userId : ObjectId)
    (body : GenerateBody) : Prop :=
  ∀ n jobId,
    let s := replay (state w)
               (take n (during (authenticate userId (generate body)) w)) in
    jobs (state w) !! jobId = None →
    is_Some (jobs s !! jobId) →
    (∃ u u', users (state w) !! userId = Some u
             ∧ users s !! userId = Some u'
             ∧ User.credits u' = User.credits u - 1)
    ∧ debits jobId (transactions s) ≠ [].

(** ** Sample requests, environments and worlds *)

Definition alice : RegisterBody :=
  mkRegisterBody "alice@example.org" "secret" "Alice" "Liddell".

Definition cat : GenerateBody :=
  mkGenerateBody (Js.str "a cat on a bicycle") None None None.

Definition cat_midjourney : GenerateBody :=
  mkGenerateBody (Js.str "a cat on a bicycle") (Some "midjourney") None None.

Definition pro_pack : PurchaseBody := mkPurchaseBody (Js.str "pro") (Js.str "card").

(** The body [{ "prompt": 12345 }]. *)
Definition number_prompt : GenerateBody :=
  mkGenerateBody (Js.other true "12345" (Some "12345")) None None None.

(** The body [{ "packageId": "pro", "paymentMethod": ["card"] }]. *)
Definition array_payment : PurchaseBody :=
  mkPurchaseBody (Js.str "pro") (Js.other true "card" None).

(** A provider that rejects every call. *)
Definition overloaded : Provider :=
  λ _ _, rejects (Js.mkError "Model is overloaded").

Definition overloaded_env : Env :=
  mkEnv (Some overloaded) (λ _ _, None) (λ n, 1000 * Z.of_nat n) None
    "3000" "/app/generated-images".

(** No HUGGINGFACE_API_KEY: the worker stores a placeholder. *)
Definition unconfigured_env : Env :=
  mkEnv None (λ _ _, None) (λ n, 1000 * Z.of_nat n) None
    "3000" "/app/generated-images".

(** A provider whose first call times out and whose second call answers. *)
Definition second_try : Provider :=
  λ n _, if decide (n = 2%nat) then fulfils "PNG" else hangs.

Definition second_try_env : Env :=
  mkEnv (Some second_try) (λ _ _, None) (λ n, 1000 * Z.of_nat n) None
    "3000" "/app/generated-images".

Definition cat_stability : GenerateBody :=
  mkGenerateBody (Js.str "a cat on a bicycle") (Some "stability-sd-3") None None.

(** Alice registers, submits a job that fails, and buys the pro pack. *)
Definition session : list Op :=
  [ POST_register alice; POST_generate 0 cat_midjourney;
    worker overloaded_env 0; POST_purchase 0 pro_pack ].

(** Alice registers and submits a job with the default model, which fails. *)
Definition outage : list Op :=
  [ POST_register alice; POST_generate 0 cat; worker overloaded_env 0 ].

(** Alice has registered and submitted a job that has not run yet. *)
Definition submitted : World :=
  run [ POST_register alice; POST_generate 0 cat_midjourney ] initial.

(** Alice has registered; nobody else has. *)
Definition registered_alice : World := run [ POST_register alice ] initial.

(** A pending job whose owner is not in the [users] collection. *)
Definition orphan : World :=
  mkWorld
    (mkState ∅
       {[ 0%nat := Job.mk 7 "a cat on a bicycle" None "dalle-3" Job.no_parameters
                     Job.pending Job.no_result Job.no_error ]}
       [] {[ 0%nat ]})
    [].

(** A user without credits. *)
Definition broke : World :=
  mkWorld
    (mkState {[ 0%nat := User.mk "bob@example.org" "secret" "Bob" "Dodgson" 0 ]}
       ∅ [] ∅)
    [].

(** * The rest of the server

    The handlers below run behind [authenticate]; they are given the
    [_id] of [req.user].  An id taken from the URL is a well-formed
    ObjectId. *)

(** What a handler sends: [res.status(code).json(payload)], or
    [res.status(code).json({ error })]. *)
Inductive Answer (A : Type) :=
| sent (code : nat) (payload : A)
| refused (code : nat) (error : string).
Arguments sent {A} code payload.
Arguments refused {A} code error.

(** ** POST /api/auth/login *)


Section Login.
(** [comparePassword] is a method of models/User.js, which is not part
    of the sources: it is a parameter of the handler. *)
Variable comparePassword : User.t → string → bool.

End Login.

(** ** GET /api/analytics/stats: the aggregates over jobs and ledger

    [imagesThisMonth] and [recentActivity] select by [createdAt] and are
    not modelled. *)

(** [Job.countDocuments({ userId, status: 'completed' })] *)
Definition totalImages (userId : ObjectId) (s : State) : nat :=
  length (filter (λ p, Job.userId p.2 = userId ∧ Job.status p.2 = Job.completed)
            (map_to_list (jobs s))).

(** [Transaction.find({ userId, type: 'usage' })] *)
Definition usageTransactions (userId : ObjectId) (s : State) : list Transaction.t :=
  filter (λ t, Transaction.userId t = userId ∧ Transaction.type t = Transaction.usage)
    (transactions s).

(** [usageTransactions.reduce((sum, t) => sum + Math.abs(t.credits), 0)] *)
Definition totalCreditsUsed (userId : ObjectId) (s : State) : Z :=
  foldl (λ sum t, sum + Z.abs (Transaction.credits t)) 0 (usageTransactions userId s).

(** ** GET /api/images/jobs/:id *)

Record JobView := mkJobView {
  view_id : ObjectId;
  view_prompt : string;
  view_model : string;
  view_parameters : Job.Parameters;
  view_status : Job.Status;
  view_result : Job.Result;
  view_error : Job.Error;
}.

Definition job_view (id : ObjectId) (job : Job.t) : JobView :=
  mkJobView id (Job.prompt job) (Job.model job) (Job.parameters job)
    (Job.status job) (Job.result job) (Job.error job).

(** [Job.findOne({ _id, userId })] *)
Definition Job_findOne (id userId : ObjectId) : M (option Job.t) :=
  gets (λ s, match jobs s !! id with
             | Some job => if decide (Job.userId job = userId) then Some job else None
             | None => None
             end).

Definition GET_job (id userId : ObjectId) : M (Answer JobView) :=
  job ← Job_findOne id userId;
  match job with
  | None => mret (refused 404 "Job not found")
  | Some job => mret (sent 200 (job_view id job))
  end.

(** ** models/ApiKey.js *)

Module ApiKey.
Record t := mk {
  userId : ObjectId;
  name : string;
  key : string;
  lastUsed : option Z;
  usageCount : Z;
  isActive : bool;
  createdAt : Z;
}.

Definition set_isActive (b : bool) (k : t) : t :=
  mk (userId k) (name k) (key k) (lastUsed k) (usageCount k) b (createdAt k).

(** [Buffer.toString('hex')] *)
Definition hex_digit (n : N) : ascii :=
  default "0"%char (String.get (N.to_nat n) "0123456789abcdef").

Definition hex_byte (b : byte) : string :=
  String (hex_digit (Byte.to_N b / 16))
    (String (hex_digit (Byte.to_N b mod 16)) "").

Fixpoint hex (bs : list byte) : string :=
  match bs with
  | [] => ""
  | b :: bs => hex_byte b +:+ hex bs
  end.

(** [apiKeySchema.statics.generateKey], on the bytes that
    [crypto.randomBytes(32)] returns. *)
Definition generateKey (randomBytes : list byte) : string :=
  "sk_" +:+ hex randomBytes.

(** Reading a hexadecimal string back. *)
Definition unhex_digit (c : ascii) : option N :=
  N.of_nat <$> String.index 0 (String c "") "0123456789abcdef".

Fixpoint unhex (s : string) : option (list byte) :=
  match s with
  | String hi (String lo s) =>
      h ← unhex_digit hi; l ← unhex_digit lo;
      b ← Byte.of_N (16 * h + l);
      bs ← unhex s;
      Some (b :: bs)
  | String _ EmptyString => None
  | EmptyString => Some []
  end.
End ApiKey.

(** ** The API key handlers, on the ApiKey collection *)

Abbreviation Keys := (gmap nat ApiKey.t) (only parsing).

Record KeyView := mkKeyView {
  key_id : ObjectId;
  key_name : string;
  key_masked : string;
  fullKey : string;
  key_lastUsed : option Z;
  key_usageCount : Z;
  key_isActive : bool;
  key_createdAt : Z;
}.

(** [k.key.substring(0, 12) + '...' + k.key.substring(k.key.length - 4)] *)
Definition mask (key : string) : string :=
  String.substring 0 12 key +:+ "..."
    +:+ String.substring (String.length key - 4)%nat (String.length key) key.

Definition key_view (p : ObjectId * ApiKey.t) : KeyView :=
  mkKeyView p.1 (ApiKey.name p.2) (mask (ApiKey.key p.2)) (ApiKey.key p.2)
    (ApiKey.lastUsed p.2) (ApiKey.usageCount p.2) (ApiKey.isActive p.2)
    (ApiKey.createdAt p.2).

(** [.sort({ createdAt: -1 })]: the order of two keys created in the
    same millisecond is not determined by it. *)
Definition newest_first : relation (ObjectId * ApiKey.t) :=
  λ a b, ApiKey.createdAt b.2 ≤ ApiKey.createdAt a.2.

#[global] Instance newest_first_dec : RelDecision newest_first.
Proof. intros a b. unfold newest_first. apply _. Defined.

(** [ApiKey.find({ userId })] *)
Definition keys_of (userId : ObjectId) (keys : Keys) : list (ObjectId * ApiKey.t) :=
  filter (λ p, ApiKey.userId p.2 = userId) (map_to_list keys).

(** GET /api/keys *)
Definition GET_keys (userId : ObjectId) (keys : Keys) : Answer (list KeyView) :=
  sent 200 (key_view <$> merge_sort newest_first (keys_of userId keys)).

Record CreatedKey := mkCreatedKey {
  created_id : ObjectId;
  created_name : string;
  created_key : string;
  created_createdAt : Z;
}.

(** POST /api/keys, with the random bytes and the clock reading it takes.
    [key] has a unique index: saving a key that is already stored fails,
    and the handler answers 500. *)
Definition POST_keys (name : string) (randomBytes : list byte) (now : Z)
    (userId : ObjectId) (keys : Keys) : Answer CreatedKey * Keys :=
  if decide (name = "") then (refused 400 "Name is required", keys)
  else
    let key := ApiKey.generateKey randomBytes in
    if bool_decide (Exists (λ p, ApiKey.key p.2 = key) (map_to_list keys)) then
      (refused 500 "Failed to create API key", keys)
    else
      let id := fresh (dom keys) in
      (sent 201 (mkCreatedKey id name key now),
       <[id := ApiKey.mk userId name key None 0 true now]> keys).

(** [ApiKey.findOne({ _id, userId })] *)
Definition ApiKey_findOne (id userId : ObjectId) (keys : Keys) : option ApiKey.t :=
  match keys !! id with
  | Some k => if decide (ApiKey.userId k = userId) then Some k else None
  | None => None
  end.

(** DELETE /api/keys/:id; the payload is [{ success: true }]. *)
Definition DELETE_key (id userId : ObjectId) (keys : Keys) : Answer unit * Keys :=
  match ApiKey_findOne id userId keys with
  | None => (refused 404 "API key not found", keys)
  | Some _ => (sent 200 tt, delete id keys)
  end.

(** PATCH /api/keys/:id/toggle; the payload is the new [isActive]. *)
Definition PATCH_toggle (id userId : ObjectId) (keys : Keys) : Answer bool * Keys :=
  match ApiKey_findOne id userId keys with
  | None => (refused 404 "API key not found", keys)
  | Some apiKey =>
      let apiKey := ApiKey.set_isActive (negb (ApiKey.isActive apiKey)) apiKey in
      (sent 200 (ApiKey.isActive apiKey), <[id := apiKey]> keys)
  end.

Inductive KeyOp :=
| create_key (userId : ObjectId) (name : string) (randomBytes : list byte) (now : Z)
| delete_key (userId id : ObjectId)
| toggle_key (userId id : ObjectId).

Definition key_step (keys : Keys) (op : KeyOp) : Keys :=
  match op with
  | create_key userId name randomBytes now =>
      (POST_keys name randomBytes now userId keys).2
  | delete_key userId id => (DELETE_key id userId keys).2
  | toggle_key userId id => (PATCH_toggle id userId keys).2
  end.

Definition key_run (ops : list KeyOp) : Keys := foldl key_step ∅ ops.

(** The user whose request an operation is. *)
Definition key_actor (op : KeyOp) : ObjectId :=
  match op with
  | create_key userId _ _ _ | delete_key userId _ | toggle_key userId _ => userId
  end.

(** ** Further observations *)

(** [result] and [error] are filled in according to [status]. *)
Definition populated (j : Job.t) : Prop :=
  match Job.status j with
  | Job.pending | Job.processing =>
      Job.result j = Job.mkResult [] None None None
      ∧ Job.error j = Job.mkError None
  | Job.completed =>
      (∃ image timeTaken, Job.images (Job.result j) = [image]
                          ∧ Job.timeTaken (Job.result j) = Some timeTaken)
      ∧ Job.error j = Job.mkError None
  | Job.failed =>
      Job.result j = Job.mkResult [] None None None
      ∧ ∃ msg, Job.error j = Job.mkError (Some msg) ∧ msg ≠ ""
  end.

(** A job of the user whose worker has been started or is waiting to
    start. *)
Definition charged (userId : ObjectId) (promises : gset nat)
    (p : ObjectId * Job.t) : Prop :=
  Job.userId p.2 = userId ∧ (Job.status p.2 ≠ Job.pending ∨ p.1 ∈ promises).

#[global] Instance charged_dec userId promises p : Decision (charged userId promises p).
Proof. unfold charged. apply _. Defined.

Definition jobs_charged (userId : ObjectId) (s : State) : nat :=
  length (filter (charged userId (detached s)) (map_to_list (jobs s))).

(** A request whose fields have the types that the handler expects: the
    [prompt] of a submission is a string; [packageId] and [paymentMethod]
    of a purchase can be stored as strings, or are missing. *)
Definition is_string (v : Js.Value) : bool :=
  match v with Js.str _ => true | _ => false end.

Definition castable (v : Js.Value) : bool :=
  match Js.castString v with Js.cast_error => false | _ => true end.

Definition well_typed (op : Op) : bool :=
  match op with
  | POST_generate _ body => is_string (gen_prompt body)
  | POST_purchase _ body =>
      castable (pur_packageId body) && castable (pur_paymentMethod body)
  | POST_register _ | worker _ _ => true
  end.

(** [Job.countDocuments({ userId })], the [total] of GET /api/images/jobs *)
Definition jobs_total (userId : ObjectId) (s : State) : nat :=
  length (filter (λ p, Job.userId p.2 = userId) (map_to_list (jobs s))).

(** * Proofs *)

(** ** Running the monad *)

Lemma bind_run {A B} (m : M A) (k : A → M B) w :
  (m ≫= k) w = k (m w).1 (m w).2.
Proof. unfold mbind, M_bind. by destruct (m w). Qed.

Lemma ret_run {A} (a : A) w : (mret a : M A) w = (a, w).
Proof. done. Qed.

Lemma gets_run {A} (f : State → A) w : gets f w = (f (state w), w).
Proof. done. Qed.

Lemma push_nil w : push w [] = w.
Proof. destruct w. unfold push. simpl. by rewrite app_nil_r. Qed.

Lemma push_push w es es' : push (push w es) es' = push w (es ++ es').
Proof. unfold push, replay. simpl. by rewrite foldl_app, app_assoc. Qed.

Lemma emit_run e w : emit e w = (tt, push w [e]).
Proof. done. Qed.

Ltac mrun :=
  repeat first
    [ rewrite bind_run | rewrite emit_run | rewrite ret_run | rewrite gets_run
    | rewrite push_push | progress cbn [fst snd] ].

Lemma push_cons w e es : push w (e :: es) = push (push w [e]) es.
Proof. by rewrite push_push. Qed.

(** ** Sums of Numbers *)

Lemma binary64_exact (z : Z) : Z.abs z < 2 ^ 53 → Js.binary64 z = z.
Proof.
  intros Hz. unfold Js.binary64. cbn zeta.
  destruct (Z.leb_spec (Z.log2 (Z.abs z) - 52) 0) as [_|He]; [done|].
  assert (0 < Z.abs z) as Hpos.
  { destruct (decide (Z.abs z = 0)) as [E|]; [|lia]. rewrite E in He. cbn in He. lia. }
  assert (Z.log2 (Z.abs z) < 53) by (by apply Z.log2_lt_pow2). lia.
Qed.

Lemma binary64_nonneg (z : Z) : 0 ≤ z → 0 ≤ Js.binary64 z.
Proof.
  intros Hz. unfold Js.binary64. cbn zeta.
  destruct (Z.leb_spec (Z.log2 (Z.abs z) - 52) 0) as [_|He]; [done|].
  set (e := Z.log2 (Z.abs z) - 52) in *.
  assert (0 < 2 ^ e) by (apply Z.pow_pos_nonneg; lia).
  assert (0 ≤ Z.abs z / 2 ^ e) by (apply Z.div_pos; lia).
  assert (0 ≤ Z.sgn z) by lia.
  apply Z.mul_nonneg_nonneg; [done|].
  apply Z.mul_nonneg_nonneg; [|lia].
  repeat case_match; lia.
Qed.

(** ** The retry loop *)

Lemma replay_attempt_log s jobId retries ms :
  replay s (attempt_log jobId retries ms) = s.
Proof.
  revert retries. induction ms as [|m ms IH]; intros [|r]; simpl; auto.
Qed.

Lemma state_push w es : state (push w es) = replay (state w) es.
Proof. done. Qed.

Lemma retry_loop_spec textToImage jobId job retries m le w :
  ∃ loop ms,
    retry_loop textToImage jobId job retries m le w
      = (loop, push w (attempt_log jobId retries ms))
    ∧ ms `prefix_of` chain retries m.
Proof.
  revert m le w. induction retries as [|r IH]; intros m le w.
  - exists (mkLoop None le m), []. simpl. rewrite push_nil. split; [done|]. by exists [].
  - cbn [retry_loop]. rewrite bind_run, emit_run. cbn [fst snd].
    destruct (race _) as [err|blob].
    + destruct (IH (if decide (0 < r)%nat then fallback m else m) (Some err)
                  (push w [Attempt jobId (4 - S r) m])) as (loop & ms & Heq & Hpre).
      exists loop, (m :: ms). split.
      * rewrite Heq, push_push. reflexivity.
      * cbn [chain]. by apply prefix_cons.
    + exists (mkLoop (Some blob) le m), [m]. split; [reflexivity|].
      cbn [chain]. apply prefix_cons, prefix_nil.
Qed.

(** ** Every operation has one of the outcomes *)

Lemma exec_bind_ret {A} (m : M A) w : exec (m;; mret tt) w = exec m w.
Proof. unfold exec. by rewrite bind_run. Qed.

Lemma authenticate_run userId next w :
  authenticate userId next w =
    match users (state w) !! userId with
    | None => (json 401 (error_ "User not found"), w)
    | Some u => next (userId, u) w
    end.
Proof.
  unfold authenticate. rewrite bind_run. unfold User_findById, gets. cbn [fst snd].
  by destruct (users (state w) !! userId).
Qed.

Lemma register_outcome body w :
  ∃ es, Outcome w (POST_register body) es ∧ exec (register body) w = push w es.
Proof.
  unfold exec, register. rewrite bind_run.
  destruct (User_findOne (reg_email body) w).1 as [p|] eqn:Hfind.
  - exists []. split; [by eapply register_taken|]. by rewrite push_nil.
  - eexists. split; [by eapply register_created|].
    unfold User_findOne, new_user_id. mrun. reflexivity.
Qed.

Lemma generate_outcome userId body w :
  ∃ es, Outcome w (POST_generate userId body) es
        ∧ exec (authenticate userId (generate body)) w = push w es.
Proof.
  unfold exec. rewrite authenticate_run.
  destruct (users (state w) !! userId) as [u|] eqn:Hu.
  - unfold generate. cbn [fst snd].
    destruct (Js.truthy (gen_prompt body)) eqn:Hp; cbn [negb].
    2:{ exists []. split; [eapply generate_rejected; eauto|]. by rewrite push_nil. }
    destruct (Z.ltb_spec (User.credits u) 1) as [Hc|Hc].
    { exists []. split; [eapply generate_rejected; eauto|]. by rewrite push_nil. }
    case_decide as Hs.
    { exists []. split; [eapply generate_rejected; eauto|]. by rewrite push_nil. }
    destruct (gen_prompt body) as [| |prompt|b shown cast] eqn:Hv.
    + done.
    + done.
    + eexists. split.
      * eapply (generate_accepted _ _ _ _ prompt); eauto.
      * unfold new_job_id. mrun. reflexivity.
    + eexists. split.
      * eapply generate_crashed; eauto; by rewrite Hv.
      * unfold new_job_id. mrun. reflexivity.
  - exists []. split; [by apply generate_unauthenticated|]. by rewrite push_nil.
Qed.

Lemma purchase_outcome userId body w :
  ∃ es, Outcome w (POST_purchase userId body) es
        ∧ exec (authenticate userId (purchase body)) w = push w es.
Proof.
  unfold exec. rewrite authenticate_run.
  destruct (users (state w) !! userId) as [u|] eqn:Hu.
  - unfold purchase. cbn zeta.
    destruct (packages (Js.toString (pur_packageId body))) as [pkg|] eqn:Hpkg.
    + mrun. destruct (purchase_entry userId pkg body) as [entry|] eqn:He.
      * eexists. split; [by eapply purchase_done|]. mrun. reflexivity.
      * eexists. split; [by eapply purchase_crashed|]. mrun. reflexivity.
    + exists []. split; [by eapply purchase_rejected|].
      rewrite push_nil. by case_bool_decide.
  - exists []. split; [by apply purchase_unauthenticated|]. by rewrite push_nil.
Qed.

Lemma replay_app s es es' : replay s (es ++ es') = replay (replay s es) es'.
Proof. apply foldl_app. Qed.

Lemma generation_attempt_spec env jobId w :
  match jobs (state w) !! jobId with
  | None => generation_attempt env jobId w = (None, w)
  | Some j =>
      let jp := Job.set_status Job.processing j in
      ∃ ms, ms `prefix_of` chain 3 (initial_model (Job.model j)) ∧
        ((∃ r, stored_result r ∧ generation_attempt env jobId w =
                 (None, push w ([SaveJob jobId jp] ++ attempt_log jobId 3 ms
                                  ++ [SaveJob jobId
                                        (Job.set_result r (Job.set_status Job.completed jp))])))
         ∨ (∃ error, generation_attempt env jobId w =
                 (Some error, push w ([SaveJob jobId jp] ++ attempt_log jobId 3 ms))))
  end.
Proof.
  unfold generation_attempt, Job_findById. rewrite bind_run, gets_run. cbn [fst snd].
  destruct (jobs (state w) !! jobId) as [j|]; [|done].
  cbn zeta. rewrite bind_run, emit_run. cbn [fst snd].
  destruct (hf env) as [textToImage|].
  - rewrite bind_run.
    destruct (retry_loop_spec textToImage jobId (Job.set_status Job.processing j) 3
                (initial_model (Job.model (Job.set_status Job.processing j))) None
                (push w [SaveJob jobId (Job.set_status Job.processing j)]))
      as (loop & ms & -> & Hpre).
    cbn [fst snd]. exists ms. split; [exact Hpre|].
    destruct (imageBlob loop) as [blob|].
    + destruct (writeFileSync env _ blob) as [thrown|].
      * right. exists thrown. by rewrite ret_run, push_push.
      * left. eexists. split; [|mrun; reflexivity]. by eexists _, _.
    + right. eexists. by rewrite ret_run, push_push.
  - exists []. split; [apply prefix_nil|]. left. eexists.
    split; [|mrun; reflexivity]. by eexists _, _.
Qed.

Lemma generation_failed_spec jobId error w j :
  jobs (state w) !! jobId = Some j →
  generation_failed jobId error w =
    (tt, push w ([SaveJob jobId (Job.set_error (Job.mkError (Some (failure_message error)))
                                    (Job.set_status Job.failed j))]
                 ++ compensation (state w) jobId j)).
Proof.
  intros Hj. unfold generation_failed, Job_findById, User_findById, compensation.
  mrun. rewrite Hj. mrun. cbn [state push replay foldl apply_event users Job.userId
    Job.set_error Job.set_status].
  destruct (users (state w) !! Job.userId j) as [u|]; mrun; reflexivity.
Qed.

Lemma worker_outcome env jobId w :
  ∃ es, Outcome w (worker env jobId) es ∧ exec (run_worker env jobId) w = push w es.
Proof.
  unfold exec, run_worker. mrun. case_decide as Hd.
  2:{ exists []. split; [by apply worker_not_detached|]. by rewrite push_nil. }
  mrun. unfold processImageGeneration. rewrite bind_run.
  pose proof (generation_attempt_spec env jobId (push w [Start jobId])) as Hspec.
  cbn [state push replay foldl apply_event jobs] in Hspec.
  destruct (jobs (state w) !! jobId) as [j|] eqn:Hj.
  - destruct Hspec as (ms & Hpre & [(r & Hr & ->) | [error ->]]).
    + eexists. split; [by eapply (worker_completed _ _ _ _ ms r)|]. mrun. reflexivity.
    + cbn [fst snd]. rewrite push_push.
      rewrite (generation_failed_spec _ _ _ (Job.set_status Job.processing j)).
      2:{ rewrite state_push, !replay_app, replay_attempt_log. cbn. apply lookup_insert_eq. }
      exists ([Start jobId; SaveJob jobId (Job.set_status Job.processing j)]
                ++ attempt_log jobId 3 ms ++ [SaveJob jobId (failed_job error j)]
                ++ compensation (state w) jobId j).
      split; [by eapply worker_failed|].
      cbn [snd]. rewrite push_push. f_equal.
      rewrite state_push, !replay_app, replay_attempt_log.
      unfold compensation. cbn. reflexivity.
  - rewrite Hspec. exists [Start jobId]. split; [by apply worker_no_job|]. done.
Qed.

Lemma step_outcome op w :
  ∃ es, Outcome w op es ∧ exec (step op) w = push w es.
Proof.
  destruct op as [body|userId body|userId body|env jobId]; cbn [step].
  - rewrite exec_bind_ret. apply register_outcome.
  - rewrite exec_bind_ret. apply generate_outcome.
  - rewrite exec_bind_ret. apply purchase_outcome.
  - apply worker_outcome.
Qed.

(** ** Observations over appended histories and ledgers *)
Lemma statuses_app jobId h h' :
  statuses jobId (h ++ h') = statuses jobId h ++ statuses jobId h'.
Proof. apply omap_app. Qed.

Lemma attempts_app jobId h h' :
  attempts jobId (h ++ h') = attempts jobId h ++ attempts jobId h'.
Proof. apply omap_app. Qed.

Lemma statuses_attempt_log jobId id retries ms :
  statuses jobId (attempt_log id retries ms) = [].
Proof. revert retries. induction ms as [|m ms IH]; intros [|r]; cbn; try done. apply IH. Qed.

Lemma attempts_attempt_log_ne jobId id retries ms :
  id ≠ jobId → attempts jobId (attempt_log id retries ms) = [].
Proof.
  intros Hne. revert retries. induction ms as [|m ms IH]; intros [|r]; cbn; try done.
  case_decide; [done|]. apply IH.
Qed.

Lemma attempts_attempt_log jobId retries ms :
  (length ms ≤ retries)%nat → attempts jobId (attempt_log jobId retries ms) = ms.
Proof.
  revert retries. induction ms as [|m ms IH]; intros [|r] Hlen; cbn in *; try done; try lia.
  case_decide; [|done]. f_equal. apply IH. lia.
Qed.

Lemma chain_length retries m : length (chain retries m) = retries.
Proof. revert m. induction retries as [|r IH]; intros m; cbn; auto. Qed.

Lemma ledger_sum_snoc userId l t :
  ledger_sum userId (l ++ [t]) =
    ledger_sum userId l
    + (if decide (Transaction.userId t = userId) then Transaction.credits t else 0).
Proof.
  unfold ledger_sum. rewrite filter_app, fmap_app, foldr_app.
  rewrite filter_cons, filter_nil. case_decide; cbn.
  - generalize (Transaction.credits <$> filter (λ t0, Transaction.userId t0 = userId) l).
    intros k. induction k as [|x k IH]; cbn; lia.
  - lia.
Qed.

Lemma ledger_sum_none userId l :
  (∀ t, t ∈ l → Transaction.userId t ≠ userId) → ledger_sum userId l = 0.
Proof.
  intros H. unfold ledger_sum. induction l as [|t l IH]; [done|].
  rewrite filter_cons. case_decide as Ht.
  - exfalso. eapply H; [|exact Ht]. left.
  - apply IH. intros t' Ht'. apply H. by right.
Qed.

(** ** The invariants are preserved by every operation *)

Lemma consistent_push w es : consistent w → consistent (push w es).
Proof. unfold consistent, push. cbn. intros ->. by rewrite replay_app. Qed.

Lemma foldl_attempt_log s jobId retries ms :
  foldl apply_event s (attempt_log jobId retries ms) = s.
Proof. apply replay_attempt_log. Qed.

Ltac simpl_state :=
  unfold push, replay; cbn [state history];
  repeat first
    [ progress cbn [foldl apply_event users jobs transactions detached]
    | rewrite foldl_app | rewrite foldl_attempt_log ].

(** *** Balances and owners *)

Lemma fresh_lookup {A} (m : gmap nat A) : m !! fresh (dom m) = None.
Proof. apply not_elem_of_dom, is_fresh. Qed.


Lemma packages_defined (packageId : string) (pkg : Package) :
  packages packageId = Some pkg ↔
    (packageId = "starter" ∧ pkg = mkPackage 50 9.99%float)
    ∨ (packageId = "pro" ∧ pkg = mkPackage 220 29.99%float)
    ∨ (packageId = "ultimate" ∧ pkg = mkPackage 600 59.99%float).
Proof.
  unfold packages. split.
  - repeat case_decide; intros [= <-]; auto.
  - intros [[-> ->]|[[-> ->]|[-> ->]]]; reflexivity.
Qed.

Lemma package_credits_positive packageId pkg :
  packages packageId = Some pkg → 0 < credits pkg.
Proof.
  intros [[_ ->]|[[_ ->]|[_ ->]]]%packages_defined; reflexivity.
Qed.

Lemma purchase_entry_Some userId pkg body entry :
  purchase_entry userId pkg body = Some entry →
  ∃ packageId paymentMethod,
    metadata_string (pur_packageId body) = Some packageId
    ∧ metadata_string (pur_paymentMethod body) = Some paymentMethod
    ∧ entry = Transaction.mk userId Transaction.purchase (price pkg) (credits pkg)
                ("Purchased " +:+ Js.toString (pur_packageId body) +:+ " package")
                Transaction.completed
                (Transaction.mkMetadata None packageId paymentMethod).
Proof.
  unfold purchase_entry.
  destruct (metadata_string (pur_packageId body)) as [packageId|]; [|done].
  destruct (metadata_string (pur_paymentMethod body)) as [paymentMethod|]; [|done].
  cbn. intros [= <-]. by eexists _, _.
Qed.

Lemma users_insert_keeps (P : User.t → Prop) (m : gmap nat User.t) id u :
  (∀ i v, m !! i = Some v → P v) → P u →
  ∀ i v, <[id := u]> m !! i = Some v → P v.
Proof.
  intros Hm Hu i v. destruct (decide (id = i)) as [->|Hne].
  - rewrite lookup_insert_eq. by intros [= <-].
  - rewrite lookup_insert_ne by done. apply Hm.
Qed.

Lemma solvent_push w op es :
  Outcome w op es → solvent (state w) → solvent (state (push w es)).
Proof.
  intros HO HP. unfold solvent in *.
  destruct HO as [|body id Hf ->| | |userId u body prompt jobId Hu Hp Hne Hc ->| |
                 |userId u body pkg entry Hu Hpkg He| | |env jobId j ms r Hd Hj Hpre
                 |env jobId j ms error Hd Hj Hpre
                 |userId u body jobId Hu Hp Hs Hc ->|userId u body pkg Hu Hpkg He];
    try exact HP; unfold compensation; simpl_state;
    try destruct (users (state w) !! Job.userId j) as [u'|] eqn:Hu';
    simpl_state; try exact HP; apply users_insert_keeps; try exact HP; cbn.
  - done.
  - apply binary64_nonneg. lia.
  - apply binary64_nonneg. apply package_credits_positive in Hpkg.
    specialize (HP _ _ Hu). lia.
  - apply binary64_nonneg. specialize (HP _ _ Hu'). lia.
  - apply binary64_nonneg. lia.
  - apply binary64_nonneg. apply package_credits_positive in Hpkg.
    specialize (HP _ _ Hu). lia.
Qed.

Lemma owned_apply s e :
  match e with
  | SaveJob _ j => is_Some (users s !! Job.userId j)
  | _ => True
  end →
  owned s → owned (apply_event s e).
Proof.
  unfold owned. intros He Hown jobId j.
  destruct e as [id u|id j'| | | |]; cbn; try apply Hown.
  - intros Hj. apply lookup_insert_is_Some'. right. by eapply Hown.
  - destruct (decide (id = jobId)) as [->|Hne].
    + rewrite lookup_insert_eq. by intros [= <-].
    + rewrite lookup_insert_ne by done. apply Hown.
Qed.

Lemma owned_push w op es :
  Outcome w op es → owned (state w) → owned (state (push w es)).
Proof.
  intros HO Hown. pose proof Hown as Hown'.
  destruct HO as [|body id Hf ->| | |userId u body prompt jobId Hu Hp Hne Hc ->| |
                 |userId u body pkg entry Hu Hpkg He| | |env jobId j ms r Hd Hj Hpre
                 |env jobId j ms error Hd Hj Hpre
                 |userId u body jobId Hu Hp Hs Hc ->|userId u body pkg Hu Hpkg He];
    try exact Hown; unfold push, replay, compensation; cbn [state foldl];
    rewrite ?foldl_app, ?foldl_attempt_log; cbn [foldl];
    try destruct (users (state w) !! Job.userId j) as [u'|] eqn:Hu; cbn [foldl];
    repeat (apply owned_apply; [|]); try done; cbn; eauto.
Qed.

(** *** The lifecycle of a job *)

Lemma debits_snoc jobId l t :
  debits jobId (l ++ [t]) =
    debits jobId l ++
    (if decide (Transaction.type t = Transaction.usage
                ∧ Transaction.jobId (Transaction.metadata t) = Some jobId)
     then [t] else []).
Proof. unfold debits. rewrite filter_app, filter_cons, filter_nil. by case_decide. Qed.

Lemma refunds_snoc jobId l t :
  refunds jobId (l ++ [t]) =
    refunds jobId l ++
    (if decide (Transaction.type t = Transaction.refund
                ∧ Transaction.jobId (Transaction.metadata t) = Some jobId)
     then [t] else []).
Proof. unfold refunds. rewrite filter_app, filter_cons, filter_nil. by case_decide. Qed.

Ltac simpl_ledger :=
  rewrite ?debits_snoc, ?refunds_snoc;
  repeat (let H := fresh "Hdec" in
          case_decide as H; cbn in H;
          [ try (exfalso; destruct H; congruence)
          | try (exfalso; apply H; split; congruence) ]);
  rewrite ?app_nil_r.

Lemma lifecycle_same w es jobId :
  jobs (replay (state w) es) !! jobId = jobs (state w) !! jobId →
  (jobId ∈ detached (replay (state w) es) ↔ jobId ∈ detached (state w)) →
  statuses jobId es = [] →
  attempts jobId es = [] →
  debits jobId (transactions (replay (state w) es)) = debits jobId (transactions (state w)) →
  refunds jobId (transactions (replay (state w) es)) = refunds jobId (transactions (state w)) →
  lifecycle w jobId → lifecycle (push w es) jobId.
Proof.
  unfold lifecycle, push. cbn [state history].
  intros -> Hd Hs Ha -> ->. rewrite statuses_app, attempts_app, Hs, Ha, !app_nil_r.
  destruct (jobs (state w) !! jobId) as [j|]; [|by rewrite Hd].
  destruct (Job.status j); by rewrite ?Hd.
Qed.

Lemma detached_pending w jobId :
  lifecycle w jobId → jobId ∈ detached (state w) →
  ∃ j, jobs (state w) !! jobId = Some j ∧ Job.status j = Job.pending
       ∧ statuses jobId (history w) = [Job.pending]
       ∧ attempts jobId (history w) = []
       ∧ debits jobId (transactions (state w))
           = [usage_entry (Job.userId j) jobId (Job.prompt j)]
       ∧ refunds jobId (transactions (state w)) = [].
Proof.
  unfold lifecycle. cbn zeta. intros HL Hd.
  destruct (jobs (state w) !! jobId) as [j|]; [|by destruct HL].
  exists j. destruct HL as (Hpre & Hdb & HL).
  destruct (Job.status j); [|done|by destruct HL..].
  destruct HL as (Hiff & ? & ? & ?). split_and!; try done.
  destruct Hdb as [Hdb|[Hdb _]]; [done|]. apply Hiff in Hd. by rewrite Hdb in Hd.
Qed.

Lemma lifecycle_push w op es :
  Outcome w op es → owned (state w) → (∀ jobId, lifecycle w jobId) →
  ∀ jobId, lifecycle (push w es) jobId.
Proof.
  intros HO Hown HL jid.
  destruct HO as [body p Hf|body id Hf ->| | |userId u body prompt jobId' Hu Hp Hnonempty Hc ->| |
                 |userId u body pkg entry Hu Hpkg He| |env jobId Hd Hj
                 |env jobId j ms r Hd Hj Hpre|env jobId j ms error Hd Hj Hpre
                 |userId u body jobId Hu Hp Hs Hc ->|userId u body pkg Hu Hpkg He];
    try (rewrite push_nil; apply HL).
  - (* register *)
    apply lifecycle_same; try done; simpl_state; by simpl_ledger.
  - (* generate *)
    pose proof (fresh_lookup (jobs (state w))) as Hfresh.
    set (jobId := fresh (dom (jobs (state w)))) in *. clearbody jobId.
    destruct (decide (jid = jobId)) as [->|Hne].
    + pose proof (HL jobId) as HLj.
      unfold lifecycle in HLj |- *. cbn zeta in *. rewrite Hfresh in HLj.
      destruct HLj as (Hnd & Hs & Ha & Hdb & Hrf).
      simpl_state. rewrite lookup_insert_eq.
      cbn [Job.status new_job Job.model Job.userId Job.prompt].
      rewrite Hp. cbn [stored_prompt Js.castString].
      rewrite statuses_app, attempts_app, Hs, Ha.
      simpl_ledger. rewrite Hdb, Hrf.
      split_and!; try done.
      * apply prefix_nil.
      * by left.
      * split; [done|]. set_solver.
      * cbn. by rewrite decide_True.
    + apply lifecycle_same; try done.
      * simpl_state. by rewrite lookup_insert_ne.
      * simpl_state. set_solver.
      * cbn. by rewrite decide_False.
      * simpl_state. by simpl_ledger.
      * simpl_state. by simpl_ledger.
  - (* purchase *)
    apply purchase_entry_Some in He as (packageId & paymentMethod & _ & _ & ->).
    apply lifecycle_same; try done; simpl_state; by simpl_ledger.
  - (* worker, no job *)
    destruct (detached_pending _ _ (HL jobId) Hd) as (j & Hj' & _). congruence.
  - (* worker, completed *)
    destruct (decide (jid = jobId)) as [->|Hne].
    + destruct (detached_pending _ _ (HL jobId) Hd)
        as (j' & Hj' & Hst & Hs & Ha & Hdb & Hrf).
      rewrite Hj in Hj'. injection Hj' as <-.
      unfold lifecycle. cbn zeta. simpl_state. rewrite lookup_insert_eq.
      cbn [Job.status Job.set_result Job.set_status Job.model Job.userId Job.prompt].
      rewrite !statuses_app, !attempts_app, Hs, Ha, statuses_attempt_log.
      rewrite (attempts_attempt_log jobId 3 ms).
      2:{ apply prefix_length in Hpre. by rewrite chain_length in Hpre. }
      split_and!; try done; try (by left).
      * cbn. by rewrite app_nil_r.
      * set_solver.
      * cbn. by rewrite !decide_True.
    + apply lifecycle_same; try done.
      * simpl_state. by rewrite !lookup_insert_ne.
      * simpl_state. set_solver.
      * rewrite !statuses_app, statuses_attempt_log. cbn. by rewrite !decide_False.
      * rewrite !attempts_app, attempts_attempt_log_ne by done. done.
      * by simpl_state.
      * by simpl_state.
  - (* worker, failed *)
    destruct (detached_pending _ _ (HL jobId) Hd)
      as (j' & Hj' & Hst & Hs & Ha & Hdb & Hrf).
    rewrite Hj in Hj'. injection Hj' as <-.
    destruct (Hown _ _ Hj) as [u Hu]. unfold compensation. rewrite Hu.
    destruct (decide (jid = jobId)) as [->|Hne].
    + unfold lifecycle. cbn zeta. simpl_state. rewrite lookup_insert_eq.
      cbn [Job.status failed_job Job.set_error Job.set_status Job.model Job.userId
           Job.prompt Job.error].
      rewrite !statuses_app, !attempts_app, Hs, Ha, statuses_attempt_log.
      rewrite (attempts_attempt_log jobId 3 ms).
      2:{ apply prefix_length in Hpre. by rewrite chain_length in Hpre. }
      simpl_ledger. rewrite Hdb, Hrf.
      split_and!; try done; try (by left).
      * set_solver.
      * cbn. by rewrite !decide_True.
      * eexists. split; [done|]. unfold failure_message, or_else.
        by case_decide.
    + apply lifecycle_same; try done.
      * simpl_state. by rewrite !lookup_insert_ne.
      * simpl_state. set_solver.
      * rewrite !statuses_app, statuses_attempt_log. cbn. by rewrite !decide_False.
      * rewrite !attempts_app, attempts_attempt_log_ne by done. done.
      * simpl_state. by simpl_ledger.
      * simpl_state. by simpl_ledger.
  - (* generate, thrown after the debit *)
    pose proof (fresh_lookup (jobs (state w))) as Hfresh.
    set (jobId' := fresh (dom (jobs (state w)))) in *. clearbody jobId'.
    destruct (decide (jid = jobId')) as [->|Hne].
    + pose proof (HL jobId') as HLj.
      unfold lifecycle in HLj |- *. cbn zeta in *. rewrite Hfresh in HLj.
      destruct HLj as (Hnd & Hst & Ha & Hdb & Hrf).
      simpl_state. rewrite lookup_insert_eq.
      cbn [Job.status new_job Job.model Job.userId Job.prompt].
      rewrite statuses_app, attempts_app, Hst, Ha, Hdb, Hrf.
      split_and!; try done.
      * apply prefix_nil.
      * by right.
      * cbn. by rewrite decide_True.
    + apply lifecycle_same; try done.
      * simpl_state. by rewrite lookup_insert_ne.
      * cbn. by rewrite decide_False.
  - (* purchase, thrown after the credit *)
    apply lifecycle_same; try done.
Qed.

(** ** Every reachable world satisfies the invariant *)

Lemma Inv_initial : Inv initial.
Proof.
  split_and!.
  - done.
  - intros userId u Hu. cbn in Hu. by rewrite lookup_empty in Hu.
  - intros jobId j Hj. cbn in Hj. by rewrite lookup_empty in Hj.
  - intros jobId. unfold lifecycle. cbn [initial state empty_state jobs].
    rewrite lookup_empty. split_and!; done.
Qed.

Lemma Inv_step op w : Inv w → Inv (exec (step op) w).
Proof.
  intros (Hc & Hb & Hown & HL).
  destruct (step_outcome op w) as (es & HO & ->).
  split_and!.
  - by apply consistent_push.
  - by eapply solvent_push.
  - by eapply owned_push.
  - by eapply lifecycle_push.
Qed.

Lemma run_snoc ops op w : run (ops ++ [op]) w = exec (step op) (run ops w).
Proof. unfold run. by rewrite foldl_app. Qed.

Lemma Inv_run ops : Inv (run ops initial).
Proof.
  induction ops as [|op ops IH] using rev_ind; [apply Inv_initial|].
  rewrite run_snoc. by apply Inv_step.
Qed.

Lemma reachable_Inv w : reachable w → Inv w.
Proof. intros [ops ->]. apply Inv_run. Qed.

Lemma during_push {A} (m : M A) w es : exec m w = push w es → during m w = es.
Proof. unfold during. intros ->. cbn. by rewrite drop_app_length. Qed.

(** ** Helper lemmas for the claims *)

Lemma statuses_take jobId n h :
  statuses jobId (take n h) `prefix_of` statuses jobId h.
Proof.
  rewrite <- (take_drop n h) at 2. rewrite statuses_app. by apply prefix_app_r.
Qed.

Lemma statuses_reachable ops jobId :
  let l := statuses jobId (history (run ops initial)) in
  l = [] ∨ l = [Job.pending]
  ∨ l = [Job.pending; Job.processing; Job.completed]
  ∨ l = [Job.pending; Job.processing; Job.failed].
Proof.
  destruct (Inv_run ops) as (_ & _ & _ & HL). specialize (HL jobId).
  unfold lifecycle in HL. cbn zeta in *.
  destruct (jobs (state (run ops initial)) !! jobId) as [j|].
  - destruct HL as (_ & _ & HL). destruct (Job.status j).
    + right; left. by destruct HL as (_ & ? & _).
    + done.
    + right; right; left. by destruct HL as (_ & ? & _).
    + right; right; right. by destruct HL as (_ & ? & _).
  - left. by destruct HL as (_ & ? & _).
Qed.

Lemma fallback_changes (modelId : string) :
  fallback modelId ≠ modelId ↔ modelId = FLUX ∨ modelId = SD21.
Proof.
  unfold fallback. split.
  - repeat case_decide; auto. done.
  - intros [->| ->]; done.
Qed.

Lemma chain_flux : chain 3 FLUX = [FLUX; SD21; SD15].
Proof. reflexivity. Qed.

Lemma chain_step retries m i a b :
  chain retries m !! i = Some a → chain retries m !! S i = Some b → b = fallback a.
Proof.
  revert m i. induction retries as [|r IH]; intros m i; [done|].
  cbn [chain]. destruct i as [|i].
  - cbn. intros [= <-]. destruct r as [|r]; [done|]. cbn [chain].
    rewrite decide_True by lia. cbn. by intros [= <-].
  - cbn. apply IH.
Qed.

Lemma retry_loop_fails textToImage jobId job retries m le w :
  always_fails textToImage →
  ∃ loop,
    retry_loop textToImage jobId job retries m le w
      = (loop, push w (attempt_log jobId retries (chain retries m)))
    ∧ imageBlob loop = None
    ∧ (lastError loop = le ∨ is_Some (lastError loop)).
Proof.
  intros Hfail. revert m le w. induction retries as [|r IH]; intros m le w.
  - exists (mkLoop None le m). cbn. rewrite push_nil. auto.
  - cbn [retry_loop chain attempt_log]. rewrite bind_run, emit_run. cbn [fst snd].
    destruct (Hfail (4 - S r)%nat
                (mkArgs m (Job.prompt job) (or_else (Job.negativePrompt job) "")))
      as [err ->].
    destruct (IH (if decide (0 < r)%nat then fallback m else m) (Some err)
                (push w [Attempt jobId (4 - S r) m])) as (loop & -> & Hb & He).
    exists loop. rewrite push_push. split_and!; [done|done|].
    right. destruct He as [->|He]; [by eexists|done].
Qed.

Lemma failure_message_nonempty error : failure_message error ≠ "".
Proof. unfold failure_message, or_else. by case_decide. Qed.

Lemma generation_attempt_fails env textToImage jobId j w :
  hf env = Some textToImage →
  always_fails textToImage →
  jobs (state w) !! jobId = Some j →
  ∃ error,
    generation_attempt env jobId w
      = (Some error,
         push w ([SaveJob jobId (Job.set_status Job.processing j)]
                 ++ attempt_log jobId 3 (chain 3 (initial_model (Job.model j))))).
Proof.
  intros Hhf Hfail Hj.
  unfold generation_attempt, Job_findById. rewrite bind_run, gets_run. cbn [fst snd].
  rewrite Hj. cbn zeta. rewrite bind_run, emit_run. cbn [fst snd]. rewrite Hhf.
  rewrite bind_run.
  destruct (retry_loop_fails textToImage jobId (Job.set_status Job.processing j) 3
              (initial_model (Job.model (Job.set_status Job.processing j))) None
              (push w [SaveJob jobId (Job.set_status Job.processing j)]) Hfail)
    as (loop & -> & Hb & _).
  cbn [fst snd]. rewrite Hb, ret_run, push_push. by eexists.
Qed.

Lemma processImageGeneration_fails env textToImage jobId j w :
  hf env = Some textToImage →
  always_fails textToImage →
  jobs (state w) !! jobId = Some j →
  ∃ error,
    exec (processImageGeneration env jobId) w
      = push w ([SaveJob jobId (Job.set_status Job.processing j)]
                ++ attempt_log jobId 3 (chain 3 (initial_model (Job.model j)))
                ++ [SaveJob jobId (failed_job error j)]
                ++ compensation (state w) jobId j).
Proof.
  intros Hhf Hfail Hj.
  destruct (generation_attempt_fails env textToImage jobId j w Hhf Hfail Hj)
    as [error Hrun].
  exists error. unfold exec, processImageGeneration. rewrite bind_run, Hrun.
  cbn [fst snd].
  rewrite (generation_failed_spec _ _ _ (Job.set_status Job.processing j)).
  2:{ rewrite state_push, !replay_app, replay_attempt_log. cbn. apply lookup_insert_eq. }
  cbn [snd]. rewrite push_push. f_equal.
Qed.

Lemma attempts_compensation jobId s id j :
  attempts jobId (compensation s id j) = [].
Proof. unfold compensation. by destruct (users s !! Job.userId j). Qed.

Lemma statuses_compensation jobId s id j :
  statuses jobId (compensation s id j) = [].
Proof. unfold compensation. by destruct (users s !! Job.userId j). Qed.

Lemma attempts_SaveJob jobId id j h :
  attempts jobId (SaveJob id j :: h) = attempts jobId h.
Proof. done. Qed.

Lemma statuses_SaveJob jobId j h :
  statuses jobId (SaveJob jobId j :: h) = Job.status j :: statuses jobId h.
Proof. cbn. by rewrite decide_True. Qed.

Lemma jobs_compensation' s s' jobId j :
  jobs (replay s (compensation s' jobId j)) = jobs s.
Proof. unfold compensation. by destruct (users s' !! Job.userId j). Qed.

Lemma worker_step_outcome env jobId w :
  ∃ es, Outcome w (worker env jobId) es ∧ exec (step (worker env jobId)) w = push w es.
Proof. apply step_outcome. Qed.

(** The purchase table against the listing of GET /api/billing/packages. *)
Lemma packages_listed (l : Listing) :
  l ∈ billing_packages →
  packages (listing_id l)
    = Some (mkPackage (listed_credits l + default 0 (listed_bonus l)) (listed_price l)).
Proof.
  unfold billing_packages. rewrite !elem_of_cons, elem_of_nil.
  intros [->|[->|[->|[]]]]; reflexivity.
Qed.


(** ** Concrete runs *)

Example binary64_rounds :
  Js.binary64 (2 ^ 53 - 1) = 2 ^ 53 - 1
  ∧ Js.binary64 (2 ^ 53 + 1) = 2 ^ 53
  ∧ Js.binary64 (2 ^ 53 + 3) = 2 ^ 53 + 4
  ∧ Js.binary64 (2 ^ 54 + 50) = 2 ^ 54 + 48.
Proof. vm_compute. auto. Qed.

Example substring_counts_units :
  Js.substring_0 50 "a cat" = "a cat"
  ∧ Js.substring_0 3 "héllo" = "hél"
  ∧ Js.substring_0 3 "a😀b" = "a😀"
  ∧ Js.substring_0 2 "a😀b"
    = String "a" (String (ascii_of_nat 237) (String (ascii_of_nat 160)
                    (String (ascii_of_nat 189) ""))).
Proof. vm_compute. auto. Qed.

Example session_statuses :
  statuses 0 (history (run session initial))
    = [Job.pending; Job.processing; Job.failed].
Proof. vm_compute. reflexivity. Qed.

Example session_ledger :
  (λ t, (Transaction.type t, Transaction.credits t))
    <$> transactions (state (run session initial))
  = [ (Transaction.bonus, 100); (Transaction.usage, -1);
      (Transaction.refund, 1); (Transaction.purchase, 220) ].
Proof. vm_compute. reflexivity. Qed.

Example session_balance :
  User.credits <$> users (state (run session initial)) !! 0%nat = Some 320.
Proof. vm_compute. reflexivity. Qed.

Example placeholder_run :
  let w := exec (step (worker unconfigured_env 0)) submitted in
  statuses 0 (history w) = [Job.pending; Job.processing; Job.completed]
  ∧ attempts 0 (history w) = []
  ∧ transactions (state w) = transactions (state submitted).
Proof. vm_compute. auto. Qed.

Example second_try_run :
  let w := run [ POST_register alice; POST_generate 0 cat;
                 worker second_try_env 0 ] initial in
  statuses 0 (history w) = [Job.pending; Job.processing; Job.completed]
  ∧ attempts 0 (history w) = [FLUX; SD21]
  ∧ (Job.result_model ∘ Job.result <$> jobs (state w) !! 0%nat) = Some (Some SD21).
Proof. vm_compute. auto. Qed.

Example stability_run :
  attempts 0 (history (run [ POST_register alice; POST_generate 0 cat_stability;
                             worker overloaded_env 0 ] initial))
    = [SD21; SD15; SD15].
Proof. vm_compute. reflexivity. Qed.

Example inherited_package :
  authenticate 0 (purchase (mkPurchaseBody (Js.str "constructor") Js.undefined))
    registered_alice
    = (json 500 (error_ "Purchase failed"), registered_alice).
Proof. vm_compute. reflexivity. Qed.

(** * The claims *)

(** C1 (balance conservation) does not hold of the code.  A submission
    whose [prompt] is the number 12345 passes the [!prompt] test; the job
    is saved with the prompt cast to a string and the balance is saved
    debited; then [prompt.substring] throws and the handler answers 500
    without a ledger entry.  After the registration and this one request
    the balance of the user is 99 and the ledger entries of the user sum
    to 100. *)
Theorem balance_lost_on_crash :
  let w := run [ POST_register alice; POST_generate 0 number_prompt ] initial in
  eval (authenticate 0 (generate number_prompt)) registered_alice
    = json 500 (error_ "Failed to create job")
  ∧ during (authenticate 0 (generate number_prompt)) registered_alice
    = [ SaveJob 0
          (Job.mk 0 "12345" None "stabilityai/stable-diffusion-xl-base-1.0"
             (Job.mkParameters None None) Job.pending
             (Job.mkResult [] None None None) (Job.mkError None));
        SaveUser 0 (User.mk "alice@example.org" "secret" "Alice" "Liddell" 99) ]
  ∧ users (state w) !! 0%nat
    = Some (User.mk "alice@example.org" "secret" "Alice" "Liddell" 99)
  ∧ transactions (state w)
    = [ Transaction.mk 0 Transaction.bonus 0%float 100 "Welcome bonus credits"
          Transaction.completed (Transaction.mkMetadata None None None) ]
  ∧ ledger_sum 0 (transactions (state w)) = 100
  ∧ ¬ (∀ userId u, users (state w) !! userId = Some u →
         User.credits u = ledger_sum userId (transactions (state w))).
Proof.
  cbv zeta. split_and!; try (vm_compute; reflexivity).
  intros H.
  specialize (H 0%nat (User.mk "alice@example.org" "secret" "Alice" "Liddell" 99)).
  assert (99 = 100) as Habsurd; [|discriminate].
  apply H. vm_compute. reflexivity.
Qed.

(** C2 (refund symmetry).  In every reachable world, a job with status
    [failed] has exactly one [refund] ledger entry tagged with its id,
    with [credits = 1], and a job with any other status has none.  When
    the worker of a submitted job runs, either the job ends [failed], the
    ledger grows by exactly that refund entry and the balance of the
    owning user, nothing else of the user, is replaced by the balance
    plus 1 (as a Number: exactly plus 1 below 2^53), or the job ends
    [completed] and neither the ledger nor any balance changes. *)
Theorem refund_symmetry (ops : list Op) (jobId : ObjectId) (j : Job.t) :
  let w := run ops initial in
  jobs (state w) !! jobId = Some j →
  (Job.status j = Job.failed →
     refunds jobId (transactions (state w))
       = [ Transaction.mk (Job.userId j) Transaction.refund 0%float 1
             "Refund for failed generation" Transaction.completed
             (Transaction.mkMetadata (Some jobId) None None) ])
  ∧ (Job.status j ≠ Job.failed → refunds jobId (transactions (state w)) = [])
  ∧ (∀ env, jobId ∈ detached (state w) →
       let w' := exec (step (worker env jobId)) w in
       ∃ j' u,
         jobs (state w') !! jobId = Some j'
         ∧ users (state w) !! Job.userId j = Some u
         ∧ ((Job.status j' = Job.failed
             ∧ transactions (state w')
               = transactions (state w)
                 ++ [ Transaction.mk (Job.userId j) Transaction.refund 0%float 1
                        "Refund for failed generation" Transaction.completed
                        (Transaction.mkMetadata (Some jobId) None None) ]
             ∧ ∃ credits',
                 users (state w')
                 = <[Job.userId j := User.mk (User.email u) (User.password u)
                                       (User.firstName u) (User.lastName u) credits']>
                     (users (state w))
                 ∧ credits' = Js.binary64 (User.credits u + 1)
                 ∧ (User.credits u + 1 < 2 ^ 53 → credits' = User.credits u + 1))
            ∨ (Job.status j' = Job.completed
               ∧ transactions (state w') = transactions (state w)
               ∧ users (state w') = users (state w)))).
Proof.
  intros w Hj. destruct (Inv_run ops) as (_ & Hsolvent & Hown & HL).
  fold w in Hsolvent, Hown, HL.
  pose proof (HL jobId) as HLj. unfold lifecycle in HLj. cbn zeta in HLj.
  rewrite Hj in HLj. destruct HLj as (_ & _ & HLj).
  split_and!.
  - intros Hst. rewrite Hst in HLj. by destruct HLj as (_ & _ & ? & _).
  - intros Hst. destruct (Job.status j); [| |..]; try done.
    + by destruct HLj as (_ & _ & _ & ?).
    + by destruct HLj as (_ & _ & ?).
  - intros env Hd w'. destruct (Hown _ _ Hj) as [u Hu].
    destruct (worker_step_outcome env jobId w) as (es & HO & Hrun).
    subst w'. rewrite Hrun. clear Hrun.
    inversion HO as [| | | | | | | |? ? Hnd|? ? ? Hnone|? ? j0 ms r ? Hj0 Hpre
                    |? ? j0 ms error ? Hj0 Hpre| |]; subst.
    + done.
    + congruence.
    + rewrite Hj in Hj0. injection Hj0 as <-. eexists _, u. split_and!.
      * simpl_state. apply lookup_insert_eq.
      * done.
      * right. split_and!; [done| |]; by simpl_state.
    + rewrite Hj in Hj0. injection Hj0 as <-.
      unfold compensation. fold w. rewrite Hu. eexists _, u. split_and!.
      * simpl_state. apply lookup_insert_eq.
      * done.
      * left. split_and!; [done|by simpl_state|].
        exists (Js.binary64 (User.credits u + 1)). split_and!.
        -- by simpl_state.
        -- done.
        -- intros Hsafe. apply binary64_exact.
           pose proof (Hsolvent _ _ Hu). lia.
Qed.

Lemma refund_symmetry_witness :
  let w := run [ POST_register alice; POST_generate 0 cat_midjourney ] initial in
  let j := new_job 0 cat_midjourney in
  (Job.status j = Job.failed →
     refunds 0 (transactions (state w))
       = [ Transaction.mk (Job.userId j) Transaction.refund 0%float 1
             "Refund for failed generation" Transaction.completed
             (Transaction.mkMetadata (Some 0%nat) None None) ])
  ∧ (Job.status j ≠ Job.failed → refunds 0 (transactions (state w)) = [])
  ∧ (∀ env, 0%nat ∈ detached (state w) →
       let w' := exec (step (worker env 0)) w in
       ∃ j' u,
         jobs (state w') !! 0%nat = Some j'
         ∧ users (state w) !! Job.userId j = Some u
         ∧ ((Job.status j' = Job.failed
             ∧ transactions (state w')
               = transactions (state w)
                 ++ [ Transaction.mk (Job.userId j) Transaction.refund 0%float 1
                        "Refund for failed generation" Transaction.completed
                        (Transaction.mkMetadata (Some 0%nat) None None) ]
             ∧ ∃ credits',
                 users (state w')
                 = <[Job.userId j := User.mk (User.email u) (User.password u)
                                       (User.firstName u) (User.lastName u) credits']>
                     (users (state w))
                 ∧ credits' = Js.binary64 (User.credits u + 1)
                 ∧ (User.credits u + 1 < 2 ^ 53 → credits' = User.credits u + 1))
            ∨ (Job.status j' = Job.completed
               ∧ transactions (state w') = transactions (state w)
               ∧ users (state w') = users (state w)))).
Proof.
  apply (refund_symmetry [ POST_register alice; POST_generate 0 cat_midjourney ] 0
           (new_job 0 cat_midjourney)).
  vm_compute. reflexivity.
Defined.

(** C3 (admission guard).  For a user whose balance is less than 1, the
    submission changes nothing: no job record, no ledger entry, the same
    balance.  The answer to a request that carries a prompt, as the
    contract of job submission requires, is 402 "Insufficient credits". *)
Theorem insufficient_credits (w : World) (userId : ObjectId) (u : User.t)
    (body : GenerateBody) :
  users (state w) !! userId = Some u →
  User.credits u < 1 →
  exec (authenticate userId (generate body)) w = w
  ∧ (Js.truthy (gen_prompt body) = true →
     eval (authenticate userId (generate body)) w
       = json 402 (error_ "Insufficient credits")).
Proof.
  intros Hu Hc. unfold exec, eval. rewrite authenticate_run, Hu.
  unfold generate. cbn [fst snd].
  destruct (Js.truthy (gen_prompt body)); cbn [negb].
  - destruct (Z.ltb_spec (User.credits u) 1); [by split|lia].
  - by split.
Qed.

Lemma insufficient_credits_witness :
  exec (authenticate 0 (generate cat)) broke = broke
  ∧ eval (authenticate 0 (generate cat)) broke
      = json 402 (error_ "Insufficient credits").
Proof.
  destruct (insufficient_credits broke 0
              (User.mk "bob@example.org" "secret" "Bob" "Dodgson" 0) cat)
    as [Hexec Heval]; [vm_compute; reflexivity..|].
  split; [exact Hexec|]. apply Heval. reflexivity.
Defined.

(** C4, as stated, fails: after the first write of a submission the job
    record exists while the balance is still undebited and the ledger has
    no [usage] entry for the job. *)
Lemma job_precedes_debit :
  let s := replay (state registered_alice)
             (take 1 (during (authenticate 0 (generate cat)) registered_alice)) in
  jobs (state registered_alice) !! 0%nat = None
  ∧ jobs s !! 0%nat = Some (new_job 0 cat)
  ∧ users s !! 0%nat = Some (new_user alice)
  ∧ debits 0 (transactions s) = []
  ∧ ¬ debit_precedes_job registered_alice 0 cat.
Proof.
  cbv zeta. split_and!; try (vm_compute; reflexivity).
  intros H. specialize (H 1%nat 0%nat). cbv zeta in H.
  destruct H as [_ Hdebits].
  - vm_compute. reflexivity.
  - vm_compute. eexists. reflexivity.
  - apply Hdebits. vm_compute. reflexivity.
Qed.

(** C4, amended (order of the side effects of a submission).  An accepted
    submission first creates the job record with status [pending], then
    saves the balance decremented by 1, then appends the [usage] ledger
    entry, and only then starts the worker and answers 202; nothing else
    is written.  After the first write the job record exists next to the
    old balance and the old ledger; when the worker is started the debit
    and its ledger entry are in place.  The decrement is that of a
    Number, exact for a balance up to 2^53. *)
Theorem generate_order (w : World) (userId : ObjectId) (u : User.t)
    (body : GenerateBody) (prompt : string) :
  users (state w) !! userId = Some u →
  gen_prompt body = Js.str prompt →
  prompt ≠ "" →
  1 ≤ User.credits u →
  let jobId := fresh (dom (jobs (state w))) in
  let log := during (authenticate userId (generate body)) w in
  let created := replay (state w) (take 1 log) in
  let debited := replay (state w) (take 3 log) in
  let balance := Js.binary64 (User.credits u - 1) in
  jobs (state w) !! jobId = None
  ∧ (User.credits u ≤ 2 ^ 53 → balance = User.credits u - 1)
  ∧ log = [ SaveJob jobId (new_job userId body);
            SaveUser userId (User.set_credits balance u);
            CreateTransaction (usage_entry userId jobId prompt);
            Spawn jobId ]
  ∧ eval (authenticate userId (generate body)) w
    = json 202 (accepted jobId Job.pending)
  ∧ exec (authenticate userId (generate body)) w = push w log
  ∧ (jobs created !! jobId = Some (new_job userId body)
     ∧ users created = users (state w)
     ∧ transactions created = transactions (state w))
  ∧ (jobs debited !! jobId = Some (new_job userId body)
     ∧ users debited !! userId = Some (User.set_credits balance u)
     ∧ transactions debited
       = transactions (state w) ++ [usage_entry userId jobId prompt]).
Proof.
  intros Hu Hp Hne Hc jobId log created debited balance.
  assert (authenticate userId (generate body) w
          = (json 202 (accepted jobId Job.pending),
             push w [ SaveJob jobId (new_job userId body);
                      SaveUser userId (User.set_credits balance u);
                      CreateTransaction (usage_entry userId jobId prompt);
                      Spawn jobId ])) as Hrun.
  { rewrite authenticate_run, Hu. unfold generate. cbn [fst snd].
    rewrite Hp. cbn [Js.truthy stored_prompt Js.castString].
    rewrite bool_decide_true by done. cbn [negb].
    destruct (Z.ltb_spec (User.credits u) 1); [lia|].
    rewrite decide_False by done.
    unfold new_job_id. mrun. reflexivity. }
  assert (log = [ SaveJob jobId (new_job userId body);
                  SaveUser userId (User.set_credits balance u);
                  CreateTransaction (usage_entry userId jobId prompt);
                  Spawn jobId ]) as Hlog.
  { apply during_push. unfold exec. by rewrite Hrun. }
  assert (jobs (state w) !! jobId = None) as Hfresh by apply fresh_lookup.
  subst created debited. rewrite Hlog. split_and!.
  - exact Hfresh.
  - intros Hsafe. apply binary64_exact. lia.
  - reflexivity.
  - unfold eval. by rewrite Hrun.
  - unfold exec. by rewrite Hrun.
  - cbn. apply lookup_insert_eq.
  - reflexivity.
  - reflexivity.
  - cbn. apply lookup_insert_eq.
  - cbn. apply lookup_insert_eq.
  - reflexivity.
Qed.

Lemma generate_order_witness :
  let w := registered_alice in
  let log := during (authenticate 0 (generate cat)) w in
  let created := replay (state w) (take 1 log) in
  let debited := replay (state w) (take 3 log) in
  jobs (state w) !! 0%nat = None
  ∧ (100 ≤ 2 ^ 53 → Js.binary64 (100 - 1) = 100 - 1)
  ∧ log = [ SaveJob 0 (new_job 0 cat);
            SaveUser 0 (User.set_credits 99 (new_user alice));
            CreateTransaction (usage_entry 0 0 "a cat on a bicycle");
            Spawn 0 ]
  ∧ eval (authenticate 0 (generate cat)) w = json 202 (accepted 0 Job.pending)
  ∧ exec (authenticate 0 (generate cat)) w = push w log
  ∧ (jobs created !! 0%nat = Some (new_job 0 cat)
     ∧ users created = users (state w)
     ∧ transactions created = transactions (state w))
  ∧ (jobs debited !! 0%nat = Some (new_job 0 cat)
     ∧ users debited !! 0%nat = Some (User.set_credits 99 (new_user alice))
     ∧ transactions debited
       = transactions (state w) ++ [usage_entry 0 0 "a cat on a bicycle"]).
Proof.
  apply (generate_order registered_alice 0 (new_user alice) cat "a cat on a bicycle").
  - vm_compute. reflexivity.
  - reflexivity.
  - discriminate.
  - vm_compute. discriminate.
Defined.

(** C5, as stated, fails: the three attempts of a job that requests
    "midjourney" against a provider that rejects every call all use
    openjourney-v4. *)
Lemma midjourney_repeats :
  attempts 0 (history (run [ POST_register alice; POST_generate 0 cat_midjourney;
                             worker overloaded_env 0 ] initial))
    = [ OPENJOURNEY; OPENJOURNEY; OPENJOURNEY ]
  ∧ ¬ no_repeat
        (attempts 0 (history (run [ POST_register alice; POST_generate 0 cat_midjourney;
                                    worker overloaded_env 0 ] initial))).
Proof.
  assert (attempts 0 (history (run [ POST_register alice; POST_generate 0 cat_midjourney;
                             worker overloaded_env 0 ] initial))
    = [ OPENJOURNEY; OPENJOURNEY; OPENJOURNEY ]) as Heq by (vm_compute; reflexivity).
  split; [exact Heq|]. rewrite Heq. intros H.
  by apply (H 0%nat OPENJOURNEY OPENJOURNEY).
Qed.

(** C5, amended (fallback chain).  The models of the attempts of a job are
    an initial segment of: the first model, its fallback, the fallback of
    that.  The fallback of FLUX.1-schnell is stable-diffusion-2-1, that of
    stable-diffusion-2-1 is stable-diffusion-v1-5, and every other model
    is its own fallback: two consecutive attempts differ exactly when the
    earlier one used FLUX.1-schnell or stable-diffusion-2-1.  A job that
    starts on FLUX.1-schnell never repeats a model. *)
Theorem fallback_chain (ops : list Op) (jobId : ObjectId) (j : Job.t) :
  jobs (state (run ops initial)) !! jobId = Some j →
  let l := attempts jobId (history (run ops initial)) in
  let first := initial_model (Job.model j) in
  l `prefix_of` [first; fallback first; fallback (fallback first)]
  ∧ fallback FLUX = SD21 ∧ fallback SD21 = SD15
  ∧ (∀ m, m ≠ FLUX → m ≠ SD21 → fallback m = m)
  ∧ (∀ i a b, l !! i = Some a → l !! S i = Some b →
       b = fallback a ∧ (b ≠ a ↔ a = FLUX ∨ a = SD21))
  ∧ (first = FLUX → l `prefix_of` [FLUX; SD21; SD15] ∧ no_repeat l).
Proof.
  intros Hj l first.
  destruct (Inv_run ops) as (_ & _ & _ & HL). specialize (HL jobId).
  unfold lifecycle in HL. cbn zeta in HL. rewrite Hj in HL.
  destruct HL as (Hpre & _). fold l first in Hpre.
  assert (∀ i a b, l !! i = Some a → l !! S i = Some b → b = fallback a) as Hstep.
  { intros i a b Ha Hb. destruct Hpre as [k Hk].
    apply (chain_step 3 first i); rewrite Hk.
    - by apply lookup_app_l_Some.
    - by apply lookup_app_l_Some. }
  split_and!.
  - exact Hpre.
  - reflexivity.
  - reflexivity.
  - intros m H1 H2. unfold fallback. by rewrite !decide_False.
  - intros i a b Ha Hb. pose proof (Hstep i a b Ha Hb) as ->.
    split; [done|]. apply fallback_changes.
  - intros Hfirst. rewrite Hfirst in Hpre. split; [exact Hpre|].
    intros i a b Ha Hb. pose proof (Hstep i a b Ha Hb) as ->.
    destruct Hpre as [k Hk]. change (chain 3 FLUX) with [FLUX; SD21; SD15] in Hk.
    assert ([FLUX; SD21; SD15] !! i = Some a) as Ha' by (rewrite Hk; by apply lookup_app_l_Some).
    assert ([FLUX; SD21; SD15] !! S i = Some (fallback a)) as Hb'
      by (rewrite Hk; by apply lookup_app_l_Some).
    destruct i as [|[|[|i]]]; cbn in Ha', Hb'; try done.
    + injection Ha' as <-. done.
    + injection Ha' as <-. done.
Qed.

Lemma fallback_chain_witness :
  let l := attempts 0 (history (run outage initial)) in
  l = [FLUX; SD21; SD15] ∧ l `prefix_of` [FLUX; SD21; SD15] ∧ no_repeat l.
Proof.
  destruct (fallback_chain outage 0
              (failed_job (Js.mkError "Model is overloaded") (new_job 0 cat)))
    as (_ & _ & _ & _ & _ & Hflux); [vm_compute; reflexivity|].
  split; [vm_compute; reflexivity|]. apply Hflux. reflexivity.
Defined.

(** C6 (retry bound).  With a provider that fails on every attempt the
    worker makes exactly three attempts, hence at most 3, and the job is
    saved with status [failed] and a non-empty [error.message]. *)
Theorem retry_bound (env : Env) (textToImage : Provider) (w : World)
    (jobId : ObjectId) (j : Job.t) :
  hf env = Some textToImage →
  always_fails textToImage →
  jobs (state w) !! jobId = Some j →
  let log := during (processImageGeneration env jobId) w in
  (length (attempts jobId log) ≤ 3)%nat
  ∧ attempts jobId log = chain 3 (initial_model (Job.model j))
  ∧ ∃ j' msg,
      jobs (state (exec (processImageGeneration env jobId) w)) !! jobId = Some j'
      ∧ Job.status j' = Job.failed
      ∧ Job.error j' = Job.mkError (Some msg)
      ∧ msg ≠ ""
      ∧ statuses jobId log = [Job.processing; Job.failed].
Proof.
  intros Hhf Hfail Hj log.
  destruct (processImageGeneration_fails env textToImage jobId j w Hhf Hfail Hj)
    as [error Hrun].
  assert (log = [SaveJob jobId (Job.set_status Job.processing j)]
                ++ attempt_log jobId 3 (chain 3 (initial_model (Job.model j)))
                ++ [SaveJob jobId (failed_job error j)]
                ++ compensation (state w) jobId j) as Hlog
    by (by apply during_push).
  assert (attempts jobId log = chain 3 (initial_model (Job.model j))) as Hatt.
  { rewrite Hlog, !attempts_app, attempts_attempt_log by (by rewrite chain_length).
    by rewrite attempts_compensation, !attempts_SaveJob, !app_nil_r. }
  split_and!.
  - by rewrite Hatt, chain_length.
  - exact Hatt.
  - exists (failed_job error j), (failure_message error). split_and!.
    + rewrite Hrun, state_push, !replay_app, jobs_compensation', replay_attempt_log.
      apply lookup_insert_eq.
    + reflexivity.
    + reflexivity.
    + apply failure_message_nonempty.
    + rewrite Hlog, !statuses_app, statuses_attempt_log, statuses_compensation.
      by rewrite !statuses_SaveJob.
Qed.

Lemma retry_bound_witness :
  let log := during (processImageGeneration overloaded_env 0) submitted in
  (length (attempts 0 log) ≤ 3)%nat
  ∧ attempts 0 log = chain 3 (initial_model "midjourney")
  ∧ ∃ j' msg,
      jobs (state (exec (processImageGeneration overloaded_env 0) submitted)) !! 0%nat
        = Some j'
      ∧ Job.status j' = Job.failed
      ∧ Job.error j' = Job.mkError (Some msg)
      ∧ msg ≠ ""
      ∧ statuses 0 log = [Job.processing; Job.failed].
Proof.
  apply (retry_bound overloaded_env overloaded submitted 0 (new_job 0 cat_midjourney)).
  - reflexivity.
  - intros n args. eexists. reflexivity.
  - vm_compute. reflexivity.
Defined.

(** C7 (monotonic status).  At every point of every execution, the status
    values persisted so far for a job are an initial segment of
    [pending, processing, completed] or of [pending, processing, failed]. *)
Theorem monotonic_status (ops : list Op) (jobId : ObjectId) (n : nat) :
  let l := statuses jobId (take n (history (run ops initial))) in
  l `prefix_of` [Job.pending; Job.processing; Job.completed]
  ∨ l `prefix_of` [Job.pending; Job.processing; Job.failed].
Proof.
  cbn zeta. pose proof (statuses_take jobId n (history (run ops initial))) as Hpre.
  destruct (statuses_reachable ops jobId) as [H|[H|[H|H]]]; cbn zeta in H;
    rewrite H in Hpre.
  - left. etrans; [exact Hpre|]. apply prefix_nil.
  - left. etrans; [exact Hpre|]. by exists [Job.processing; Job.completed].
  - by left.
  - by right.
Qed.

(** C8 (billing purchase) does not hold of the code.  The handler saves
    the credited balance before it creates the ledger entry.  When the
    [paymentMethod] of the body is the array [["card"]], which the
    String cast of [metadata.paymentMethod] rejects, the purchase of the
    package "pro" adds its 220 credits to the balance, creates no ledger
    entry, and is answered with 500. *)
Theorem purchase_without_entry :
  let w := registered_alice in
  let w' := exec (authenticate 0 (purchase array_payment)) w in
  Js.toString (pur_packageId array_payment) = "pro"
  ∧ packages "pro" = Some (mkPackage 220 29.99%float)
  ∧ eval (authenticate 0 (purchase array_payment)) w
    = json 500 (error_ "Purchase failed")
  ∧ users (state w) !! 0%nat
    = Some (User.mk "alice@example.org" "secret" "Alice" "Liddell" 100)
  ∧ users (state w') !! 0%nat
    = Some (User.mk "alice@example.org" "secret" "Alice" "Liddell" 320)
  ∧ transactions (state w') = transactions (state w)
  ∧ during (authenticate 0 (purchase array_payment)) w
    = [ SaveUser 0 (User.mk "alice@example.org" "secret" "Alice" "Liddell" 320) ].
Proof. cbv zeta. split_and!; vm_compute; reflexivity. Qed.

(** C9 (registration bonus).  A registration answered with 201 creates
    one new user with a balance of 100 credits and appends exactly one
    [bonus] ledger entry for that user, with [credits = 100] and
    [amount = 0]. *)
Theorem registration_bonus (body : RegisterBody) (w : World) :
  code (eval (register body) w) = 201%nat →
  ∃ id,
    eval (register body) w = json 201 (registered id (new_user body))
    ∧ users (state w) !! id = None
    ∧ User.credits (new_user body) = 100
    ∧ users (state (exec (register body) w)) = <[id := new_user body]> (users (state w))
    ∧ transactions (state (exec (register body) w))
        = transactions (state w)
          ++ [ Transaction.mk id Transaction.bonus 0%float 100
                 "Welcome bonus credits" Transaction.completed
                 (Transaction.mkMetadata None None None) ].
Proof.
  unfold eval, exec, register. rewrite bind_run.
  destruct (User_findOne (reg_email body) w).1 as [p|] eqn:Hfind.
  { rewrite ret_run. cbn. discriminate. }
  intros _. exists (fresh (dom (users (state w)))).
  unfold User_findOne, new_user_id. mrun.
  split_and!; try reflexivity. apply fresh_lookup.
Qed.

Lemma registration_bonus_witness :
  ∃ id,
    eval (register alice) initial = json 201 (registered id (new_user alice))
    ∧ users (state initial) !! id = None
    ∧ User.credits (new_user alice) = 100
    ∧ users (state (exec (register alice) initial))
        = <[id := new_user alice]> (users (state initial))
    ∧ transactions (state (exec (register alice) initial))
        = transactions (state initial)
          ++ [ Transaction.mk id Transaction.bonus 0%float 100
                 "Welcome bonus credits" Transaction.completed
                 (Transaction.mkMetadata None None None) ].
Proof. apply (registration_bonus alice initial). vm_compute. reflexivity. Defined.

(** C10 (refund only for a stored user).  When the generation of a job
    throws, the job is saved with status [failed] and the message of the
    error, or "Image generation failed" when that message is empty, and
    is otherwise unchanged; if the record of the owning user is not
    found, no balance changes and no ledger entry is appended, and if it
    is found, its balance is replaced by the balance plus 1 (as a Number:
    exactly plus 1 below 2^53 in absolute value) and one [refund] entry
    is appended. *)
Theorem refund_needs_user (env : Env) (w : World) (jobId : ObjectId) (j : Job.t)
    (error : Js.Error) :
  jobs (state w) !! jobId = Some j →
  eval (generation_attempt env jobId) w = Some error →
  let w' := exec (processImageGeneration env jobId) w in
  let msg := if decide (Js.message error = "") then "Image generation failed"
             else Js.message error in
  jobs (state w') !! jobId
    = Some (Job.mk (Job.userId j) (Job.prompt j) (Job.negativePrompt j) (Job.model j)
              (Job.parameters j) Job.failed (Job.result j) (Job.mkError (Some msg)))
  ∧ msg ≠ ""
  ∧ match users (state w) !! Job.userId j with
    | None =>
        users (state w') = users (state w)
        ∧ transactions (state w') = transactions (state w)
    | Some u =>
        (∃ credits',
            users (state w')
            = <[Job.userId j := User.mk (User.email u) (User.password u)
                                  (User.firstName u) (User.lastName u) credits']>
                (users (state w))
            ∧ credits' = Js.binary64 (User.credits u + 1)
            ∧ (Z.abs (User.credits u + 1) < 2 ^ 53 → credits' = User.credits u + 1))
        ∧ transactions (state w')
          = transactions (state w)
            ++ [ Transaction.mk (Job.userId j) Transaction.refund 0%float 1
                   "Refund for failed generation" Transaction.completed
                   (Transaction.mkMetadata (Some jobId) None None) ]
    end.
Proof.
  intros Hj Hthrown w' msg.
  pose proof (generation_attempt_spec env jobId w) as Hspec. rewrite Hj in Hspec.
  cbn zeta in Hspec.
  destruct Hspec as (ms & Hpre & [(r & _ & Hrun) | [error' Hrun]]).
  { unfold eval in Hthrown. by rewrite Hrun in Hthrown. }
  assert (error' = error) as ->.
  { unfold eval in Hthrown. rewrite Hrun in Hthrown. by injection Hthrown. }
  assert (w' = push w ([SaveJob jobId (Job.set_status Job.processing j)]
                ++ attempt_log jobId 3 ms
                ++ [SaveJob jobId (failed_job error j)]
                ++ compensation (state w) jobId j)) as ->.
  { unfold w', exec, processImageGeneration. rewrite bind_run, Hrun. cbn [fst snd].
    rewrite (generation_failed_spec _ _ _ (Job.set_status Job.processing j)).
    2:{ rewrite state_push, !replay_app, replay_attempt_log. cbn. apply lookup_insert_eq. }
    cbn [snd]. rewrite push_push. f_equal.
    rewrite state_push, !replay_app, replay_attempt_log.
    unfold compensation. cbn. reflexivity. }
  split_and!.
  - rewrite state_push, !replay_app, jobs_compensation', replay_attempt_log.
    cbn [replay foldl apply_event jobs]. rewrite lookup_insert_eq. reflexivity.
  - unfold msg. by case_decide.
  - unfold compensation. destruct (users (state w) !! Job.userId j) as [u|].
    + split; [|by simpl_state].
      exists (Js.binary64 (User.credits u + 1)). split_and!.
      * by simpl_state.
      * done.
      * apply binary64_exact.
    + split; by simpl_state.
Qed.

Lemma refund_needs_user_witness :
  let w' := exec (processImageGeneration overloaded_env 0) orphan in
  jobs (state w') !! 0%nat
    = Some (Job.mk 7 "a cat on a bicycle" None "dalle-3" Job.no_parameters Job.failed
              Job.no_result (Job.mkError (Some "Model is overloaded")))
  ∧ "Model is overloaded" ≠ ""
  ∧ users (state w') = users (state orphan)
  ∧ transactions (state w') = transactions (state orphan).
Proof.
  apply (refund_needs_user overloaded_env orphan 0
           (Job.mk 7 "a cat on a bicycle" None "dalle-3" Job.no_parameters Job.pending
              Job.no_result Job.no_error)
           (Js.mkError "Model is overloaded")); vm_compute; reflexivity.
Defined.

(** * Further properties *)

(** ** What every operation keeps *)

Lemma run_app ops ops' w : run (ops ++ ops') w = run ops' (run ops w).
Proof. unfold run. by rewrite foldl_app. Qed.

Lemma Inv_run_from ops w : Inv w → Inv (run ops w).
Proof.
  revert w. induction ops as [|op ops IH]; intros w HI; [done|].
  cbn. apply IH. by apply Inv_step.
Qed.

(** A property of states that every outcome keeps holds after every run. *)
Lemma run_keeps (P : State → Prop) ops w :
  (∀ w op es, Inv w → P (state w) → Outcome w op es → P (state (push w es))) →
  Inv w → P (state w) → P (state (run ops w)).
Proof.
  intros Hkeep. revert w. induction ops as [|op ops IH]; intros w HI HP; [done|].
  cbn. destruct (step_outcome op w) as (es & HO & Hrun).
  apply IH.
  - by apply Inv_step.
  - rewrite Hrun. by eapply Hkeep.
Qed.

(** X1 (no overdraft).  After any sequence of operations the balance of
    every stored user is at least 0: a submission is admitted only with a
    balance of 1 or more, and purchases and refunds only add credits. *)
Theorem balance_nonnegative (ops : list Op) (userId : ObjectId) (u : User.t) :
  users (state (run ops initial)) !! userId = Some u → 0 ≤ User.credits u.
Proof. intros Hu. destruct (Inv_run ops) as (_ & Hs & _). by eapply Hs. Qed.

Lemma balance_nonnegative_witness :
  0 ≤ User.credits (User.mk "alice@example.org" "secret" "Alice" "Liddell" 320).
Proof. apply (balance_nonnegative session 0). vm_compute. reflexivity. Defined.

(** X2 (at most one debit per job).  In every reachable state a stored
    job has at most one [usage] ledger entry tagged with its id: it
    debits one credit from the owner of the job, with [amount] 0 and the
    first 50 UTF-16 code units of the prompt in its description.  The
    entry is there as soon as the worker of the job has been started; it
    is missing only for a pending job whose worker has not been started,
    the job left behind by a submission that threw after the debit.  An
    id without a job has no such entry. *)
Theorem one_debit_per_job (ops : list Op) (jobId : ObjectId) :
  let s := state (run ops initial) in
  match jobs s !! jobId with
  | Some j =>
      let entry :=
        Transaction.mk (Job.userId j) Transaction.usage 0%float (-1)
          ("Image generation: " +:+ Js.substring_0 50 (Job.prompt j) +:+ "...")
          Transaction.completed
          (Transaction.mkMetadata (Some jobId) None None) in
      (debits jobId (transactions s) = [entry] ∨ debits jobId (transactions s) = [])
      ∧ (Job.status j ≠ Job.pending ∨ jobId ∈ detached s →
         debits jobId (transactions s) = [entry])
      ∧ (debits jobId (transactions s) = [] →
         Job.status j = Job.pending ∧ jobId ∉ detached s)
  | None => debits jobId (transactions s) = []
  end.
Proof.
  destruct (Inv_run ops) as (_ & _ & _ & HL). specialize (HL jobId).
  unfold lifecycle in HL. cbn zeta in *.
  destruct (jobs (state (run ops initial)) !! jobId) as [j|].
  2:{ by destruct HL as (_ & _ & _ & ? & _). }
  destruct HL as (_ & Hdb & HL).
  change (usage_entry (Job.userId j) jobId (Job.prompt j))
    with (Transaction.mk (Job.userId j) Transaction.usage 0%float (-1)
            ("Image generation: " +:+ Js.substring_0 50 (Job.prompt j) +:+ "...")
            Transaction.completed
            (Transaction.mkMetadata (Some jobId) None None)) in Hdb.
  split_and!.
  - destruct Hdb as [->|[-> _]]; auto.
  - intros Hrun. destruct Hdb as [->|[Hdb Hst]]; [done|].
    rewrite Hst in HL. destruct HL as (Hiff & _).
    destruct Hrun as [Hrun|Hrun]; [done|]. apply Hiff in Hrun. by rewrite Hdb in Hrun.
  - intros Hnone. destruct Hdb as [Hdb|[_ Hst]]; [by rewrite Hnone in Hdb|].
    split; [done|]. rewrite Hst in HL. destruct HL as (Hiff & _).
    intros Hd. apply Hiff in Hd. by rewrite Hnone in Hd.
Qed.

(** The ledger only grows, by at most one entry for each operation. *)
Lemma transactions_step op w :
  ∃ k, transactions (state (exec (step op) w)) = transactions (state w) ++ k
       ∧ (length k ≤ 1)%nat.
Proof.
  destruct (step_outcome op w) as (es & HO & ->).
  destruct HO as [|body id Hf ->| | |userId u body prompt jobId Hu Hp Hnonempty Hc ->| |
                 |userId u body pkg entry Hu Hpkg He| | |env jobId j ms r Hd Hj Hpre
                 |env jobId j ms error Hd Hj Hpre
                 |cuser cu body cjob Hu Hp Hs Hc ->|cuser cu body pkg Hu Hpkg He];
    unfold compensation;
    try destruct (users (state w) !! Job.userId j) as [u'|] eqn:Hu';
    simpl_state;
    first [ by (exists []; rewrite app_nil_r; auto) | by (eexists [_]; auto) ].
Qed.

(** X3 (append-only ledger).  Operations only append to the ledger:
    the ledger after [ops] is a prefix of the ledger after [ops ++ ops'],
    and each operation adds at most one entry. *)
Theorem ledger_append_only (ops ops' : list Op) :
  transactions (state (run ops initial))
    `prefix_of` transactions (state (run (ops ++ ops') initial))
  ∧ (length (transactions (state (run ops initial))) ≤ length ops)%nat.
Proof.
  split.
  - rewrite run_app. generalize (run ops initial). intros w.
    revert w. induction ops' as [|op ops' IH]; intros w; [done|].
    cbn. etrans; [|apply IH].
    destruct (transactions_step op w) as (k & -> & _). by apply prefix_app_r.
  - induction ops as [|op ops IH] using rev_ind; [done|].
    rewrite run_snoc, length_app. cbn.
    destruct (transactions_step op (run ops initial)) as (k & -> & Hk).
    rewrite length_app. lia.
Qed.

(** Stored documents keep the fields of the request that created them. *)
Lemma job_step op w jobId j :
  jobs (state w) !! jobId = Some j →
  ∃ j', jobs (state (exec (step op) w)) !! jobId = Some j'
        ∧ Job.userId j' = Job.userId j ∧ Job.prompt j' = Job.prompt j
        ∧ Job.negativePrompt j' = Job.negativePrompt j
        ∧ Job.model j' = Job.model j ∧ Job.parameters j' = Job.parameters j.
Proof.
  intros Hjob. destruct (step_outcome op w) as (es & HO & ->).
  destruct HO as [|body id Hf ->| | |userId u body prompt jobId' Hu Hp Hnonempty Hc ->| |
                 |userId u body pkg entry Hu Hpkg He| | |env jobId' j0 ms r Hd Hj Hpre
                 |env jobId' j0 ms error Hd Hj Hpre
                 |cuser cu body cjob Hu Hp Hs Hc ->|cuser cu body pkg Hu Hpkg He];
    unfold compensation;
    try destruct (users (state w) !! Job.userId j0) as [u'|] eqn:Hu';
    simpl_state; try (by exists j).
  - exists j. rewrite lookup_insert_ne; [done|].
    intros <-. by rewrite fresh_lookup in Hjob.
  - destruct (decide (jobId' = jobId)) as [->|Hne].
    + rewrite lookup_insert_eq. rewrite Hj in Hjob. injection Hjob as <-. by eexists.
    + rewrite !lookup_insert_ne by done. by exists j.
  - destruct (decide (jobId' = jobId)) as [->|Hne].
    + rewrite lookup_insert_eq. rewrite Hj in Hjob. injection Hjob as <-. by eexists.
    + rewrite !lookup_insert_ne by done. by exists j.
  - destruct (decide (jobId' = jobId)) as [->|Hne].
    + rewrite lookup_insert_eq. rewrite Hj in Hjob. injection Hjob as <-. by eexists.
    + rewrite !lookup_insert_ne by done. by exists j.
  - destruct (decide (jobId' = jobId)) as [->|Hne].
    + rewrite lookup_insert_eq. rewrite Hj in Hjob. injection Hjob as <-. by eexists.
    + rewrite !lookup_insert_ne by done. by exists j.
  - exists j. rewrite lookup_insert_ne; [done|].
    intros <-. by rewrite fresh_lookup in Hjob.
Qed.

Lemma job_run ops w jobId j :
  jobs (state w) !! jobId = Some j →
  ∃ j', jobs (state (run ops w)) !! jobId = Some j'
        ∧ Job.userId j' = Job.userId j ∧ Job.prompt j' = Job.prompt j
        ∧ Job.negativePrompt j' = Job.negativePrompt j
        ∧ Job.model j' = Job.model j ∧ Job.parameters j' = Job.parameters j.
Proof.
  revert w j. induction ops as [|op ops IH]; intros w j Hj; [by exists j|].
  cbn. destruct (job_step op w jobId j Hj) as (j1 & Hj1 & E1 & E2 & E3 & E4 & E5).
  destruct (IH _ _ Hj1) as (j' & Hj' & F1 & F2 & F3 & F4 & F5).
  exists j'. split_and!; [done|congruence..].
Qed.

(** X4 (a job keeps its request).  A stored job is never deleted, and
    its [userId], [prompt], [negativePrompt], [model] and [parameters] stay
    as submitted: the worker changes only [status], [result] and [error]. *)
Theorem job_request_immutable (ops ops' : list Op) (jobId : ObjectId) (j : Job.t) :
  jobs (state (run ops initial)) !! jobId = Some j →
  ∃ j', jobs (state (run (ops ++ ops') initial)) !! jobId = Some j'
        ∧ Job.userId j' = Job.userId j ∧ Job.prompt j' = Job.prompt j
        ∧ Job.negativePrompt j' = Job.negativePrompt j
        ∧ Job.model j' = Job.model j ∧ Job.parameters j' = Job.parameters j.
Proof. intros Hj. rewrite run_app. by apply job_run. Qed.

Lemma job_request_immutable_witness :
  ∃ j', jobs (state (run ([ POST_register alice; POST_generate 0 cat_midjourney ]
                          ++ [ worker overloaded_env 0; POST_purchase 0 pro_pack ])
                       initial)) !! 0%nat = Some j'
        ∧ Job.userId j' = Job.userId (new_job 0 cat_midjourney)
        ∧ Job.prompt j' = Job.prompt (new_job 0 cat_midjourney)
        ∧ Job.negativePrompt j' = Job.negativePrompt (new_job 0 cat_midjourney)
        ∧ Job.model j' = Job.model (new_job 0 cat_midjourney)
        ∧ Job.parameters j' = Job.parameters (new_job 0 cat_midjourney).
Proof.
  apply (job_request_immutable [ POST_register alice; POST_generate 0 cat_midjourney ]
           [ worker overloaded_env 0; POST_purchase 0 pro_pack ] 0).
  vm_compute. reflexivity.
Defined.

Lemma user_step op w userId u :
  users (state w) !! userId = Some u →
  ∃ credits, users (state (exec (step op) w)) !! userId
             = Some (User.set_credits credits u).
Proof.
  intros Huser. destruct (step_outcome op w) as (es & HO & ->).
  assert (users (state w) !! userId = Some (User.set_credits (User.credits u) u))
    as Hsame by (by destruct u).
  destruct HO as [|body id Hf ->| | |userId' u0 body prompt jobId' Hu Hp Hnonempty Hc ->| |
                 |userId' u0 body pkg entry Hu Hpkg He| | |env jobId' j0 ms r Hd Hj Hpre
                 |env jobId' j0 ms error Hd Hj Hpre
                 |cuser cu body cjob Hu Hp Hs Hc ->|cuser cu body pkg Hu Hpkg He];
    unfold compensation;
    try destruct (users (state w) !! Job.userId j0) as [u'|] eqn:Hu';
    simpl_state; try (by eexists).
  - exists (User.credits u). rewrite lookup_insert_ne; [done|].
    intros <-. by rewrite fresh_lookup in Huser.
  - destruct (decide (userId' = userId)) as [->|Hne].
    + rewrite lookup_insert_eq. rewrite Hu in Huser. injection Huser as <-. by eexists.
    + rewrite lookup_insert_ne by done. by eexists.
  - destruct (decide (userId' = userId)) as [->|Hne].
    + rewrite lookup_insert_eq. rewrite Hu in Huser. injection Huser as <-. by eexists.
    + rewrite lookup_insert_ne by done. by eexists.
  - destruct (decide (Job.userId j0 = userId)) as [Heq|Hne].
    + rewrite Heq, lookup_insert_eq. rewrite Heq, Huser in Hu'. injection Hu' as <-.
      by eexists.
    + rewrite lookup_insert_ne by done. by eexists.
  - destruct (decide (cuser = userId)) as [->|Hne].
    + rewrite lookup_insert_eq. rewrite Hu in Huser. injection Huser as <-. by eexists.
    + rewrite lookup_insert_ne by done. by eexists.
  - destruct (decide (cuser = userId)) as [->|Hne].
    + rewrite lookup_insert_eq. rewrite Hu in Huser. injection Huser as <-. by eexists.
    + rewrite lookup_insert_ne by done. by eexists.
Qed.

(** X5 (a user keeps its identity).  A stored user is never deleted
    and only its [credits] change: email, password and names stay as
    registered. *)
Theorem user_identity_immutable (ops ops' : list Op) (userId : ObjectId) (u : User.t) :
  users (state (run ops initial)) !! userId = Some u →
  ∃ credits, users (state (run (ops ++ ops') initial)) !! userId
             = Some (User.set_credits credits u).
Proof.
  intros Hu. rewrite run_app. revert Hu. generalize (run ops initial). intros w.
  revert w u. induction ops' as [|op ops' IH]; intros w u Hu.
  - exists (User.credits u). by destruct u.
  - cbn. destruct (user_step op w userId u Hu) as (c & Hc).
    destruct (IH _ _ Hc) as (c' & Hc'). exists c'. exact Hc'.
Qed.

Lemma user_identity_immutable_witness :
  ∃ credits,
    users (state (run ([ POST_register alice ]
                       ++ [ POST_generate 0 cat; POST_purchase 0 pro_pack ])
                    initial)) !! 0%nat
    = Some (User.set_credits credits (new_user alice)).
Proof.
  apply (user_identity_immutable [ POST_register alice ]
           [ POST_generate 0 cat; POST_purchase 0 pro_pack ] 0).
  vm_compute. reflexivity.
Defined.

(** Result and error are populated according to the status, in every
    state that an execution passes through. *)
Lemma populated_replay s es :
  (∀ i v, jobs s !! i = Some v → populated v) →
  Forall (λ e, match e with SaveJob _ j => populated j | _ => True end) es →
  ∀ i v, jobs (replay s es) !! i = Some v → populated v.
Proof.
  intros Hs Hes. revert s Hs. induction Hes as [|e es He _ IH]; intros s Hs; [done|].
  cbn. apply IH. destruct e as [| id j | | | |]; cbn; try exact Hs.
  intros i v. destruct (decide (id = i)) as [->|Hne].
  - rewrite lookup_insert_eq. by intros [= <-].
  - rewrite lookup_insert_ne by done. apply Hs.
Qed.

Lemma attempt_log_saves_nothing (P : Job.t → Prop) jobId retries ms :
  Forall (λ e, match e with SaveJob _ j => P j | _ => True end)
    (attempt_log jobId retries ms).
Proof.
  revert retries. induction ms as [|m ms IH]; intros [|r]; cbn; auto.
Qed.

Lemma outcome_saves_populated w op es :
  Inv w →
  (∀ i v, jobs (state w) !! i = Some v → populated v) →
  Outcome w op es →
  Forall (λ e, match e with SaveJob _ j => populated j | _ => True end) es.
Proof.
  intros (_ & _ & _ & HL) HP HO.
  assert (∀ jobId j, jobId ∈ detached (state w) → jobs (state w) !! jobId = Some j →
            Job.result j = Job.mkResult [] None None None
            ∧ Job.error j = Job.mkError None) as Hpending.
  { intros jobId j Hd Hj.
    destruct (detached_pending _ _ (HL jobId) Hd) as (j' & Hj' & Hst & _).
    rewrite Hj in Hj'. injection Hj' as <-.
    pose proof (HP _ _ Hj) as Hpop. unfold populated in Hpop.
    rewrite Hst in Hpop. exact Hpop. }
  destruct HO as [|body id Hf ->| | |userId u body prompt jobId Hu Hp Hnonempty Hc ->| |
                 |userId u body pkg entry Hu Hpkg He| | |env jobId j ms r Hd Hj Hpre Hr
                 |env jobId j ms error Hd Hj Hpre
                 |cuser cu body cjob Hu Hp Hs Hc ->|cuser cu body pkg Hu Hpkg He];
    unfold compensation;
    try destruct (users (state w) !! Job.userId j) as [u'|] eqn:Hu';
    try destruct (Hpending _ _ Hd Hj) as [Hres Herr];
    rewrite ?Forall_app; repeat split;
    try apply attempt_log_saves_nothing;
    repeat constructor; unfold populated; cbn; auto.
  all: eexists; split; [reflexivity|apply failure_message_nonempty].
Qed.

Lemma populated_history ops n :
  ∀ i v, jobs (replay empty_state (take n (history (run ops initial)))) !! i = Some v →
         populated v.
Proof.
  revert n. induction ops as [|op ops IH] using rev_ind; intros n.
  - cbn. rewrite take_nil. cbn. intros i v Hv. by rewrite lookup_empty in Hv.
  - rewrite run_snoc.
    destruct (step_outcome op (run ops initial)) as (es & HO & ->).
    pose proof (Inv_run ops) as HI. pose proof HI as (Hc & _).
    unfold push. cbn [history]. rewrite take_app, replay_app.
    assert (∀ i v, jobs (state (run ops initial)) !! i = Some v → populated v) as HP.
    { intros i v Hv. apply (IH (length (history (run ops initial))) i v).
      rewrite take_ge by done. unfold consistent in Hc. by rewrite <- Hc. }
    apply populated_replay; [apply IH|].
    apply Forall_take. by eapply outcome_saves_populated.
Qed.

(** X6 (result and error follow the status).  In every state that an
    execution passes through, a [pending] or [processing] job has the
    result and the error of a new document, that is no image, no other
    field of [result] and no [error.message]; a [completed] job has one
    image and a [timeTaken] in its result and no error message; a
    [failed] job has a non-empty error message and the result of a new
    document. *)
Theorem result_and_error_by_status (ops : list Op) (n : nat) (jobId : ObjectId)
    (j : Job.t) :
  jobs (replay empty_state (take n (history (run ops initial)))) !! jobId = Some j →
  match Job.status j with
  | Job.pending | Job.processing =>
      Job.result j = Job.mkResult [] None None None
      ∧ Job.error j = Job.mkError None
  | Job.completed =>
      (∃ image timeTaken, Job.images (Job.result j) = [image]
                          ∧ Job.timeTaken (Job.result j) = Some timeTaken)
      ∧ Job.error j = Job.mkError None
  | Job.failed =>
      Job.result j = Job.mkResult [] None None None
      ∧ ∃ msg, Job.error j = Job.mkError (Some msg) ∧ msg ≠ ""
  end.
Proof. apply populated_history. Qed.

Lemma result_and_error_by_status_witness :
  Job.result (failed_job (Js.mkError "Model is overloaded") (new_job 0 cat_midjourney))
    = Job.mkResult [] None None None
  ∧ ∃ msg, Job.error (failed_job (Js.mkError "Model is overloaded")
                        (new_job 0 cat_midjourney))
           = Job.mkError (Some msg) ∧ msg ≠ "".
Proof.
  apply (result_and_error_by_status session 13 0
           (failed_job (Js.mkError "Model is overloaded") (new_job 0 cat_midjourney))).
  vm_compute. reflexivity.
Defined.

(** [User.findOne({ email })] finds nothing exactly when no stored user
    has the email. *)
Lemma User_findOne_None email w :
  eval (User_findOne email) w = None ↔
  ∀ id u, users (state w) !! id = Some u → User.email u ≠ email.
Proof.
  unfold eval, User_findOne, gets. cbn. split.
  - intros Hfind id u Hu Heq.
    pose proof (List.find_none _ _ Hfind (id, u)) as Hnone. cbn in Hnone.
    rewrite bool_decide_eq_false in Hnone. apply Hnone; [|done].
    apply list_elem_of_In, elem_of_map_to_list, Hu.
  - intros Hno. destruct (List.find _ _) as [[id u]|] eqn:Hfind; [|done].
    apply List.find_some in Hfind as [Hin Heq]. cbn in Heq.
    apply bool_decide_eq_true in Heq.
    apply list_elem_of_In, elem_of_map_to_list in Hin. by destruct (Hno id u Hin).
Qed.


Lemma emails_distinct (ops : list Op) (id id' : ObjectId) (u u' : User.t) :
  users (state (run ops initial)) !! id = Some u →
  users (state (run ops initial)) !! id' = Some u' →
  User.email u = User.email u' →
  id = id'.
Proof.
  revert id id' u u'.
  apply (run_keeps (λ s, ∀ i i' v v', users s !! i = Some v → users s !! i' = Some v' →
                         User.email v = User.email v' → i = i'));
    [|apply Inv_initial|intros i i' v v' Hv; cbn in Hv; by rewrite lookup_empty in Hv].
  intros w op es _ HP HO.
  assert (∀ k c x, users (state w) !! k = Some x →
            ∀ i i' v v', <[k := User.set_credits c x]> (users (state w)) !! i = Some v →
              <[k := User.set_credits c x]> (users (state w)) !! i' = Some v' →
              User.email v = User.email v' → i = i') as Hupdate.
  { intros k c x Hx i i' v v'.
    destruct (decide (k = i)) as [Ei|Hi], (decide (k = i')) as [Ei'|Hi']; subst;
      rewrite ?lookup_insert_eq, ?lookup_insert_ne by done; try done.
    - intros [= <-] Hv' He. by apply (HP _ _ _ _ Hx Hv').
    - intros Hv [= <-] He. by apply (HP _ _ _ _ Hv Hx).
    - apply HP. }
  destruct HO as [|body id Hf ->| | |userId u body prompt jobId Hu Hp Hnonempty Hc ->| |
                 |userId u body pkg entry Hu Hpkg He| | |env jobId j ms r Hd Hj Hpre
                 |env jobId j ms error Hd Hj Hpre
                 |cuser cu body cjob Hu Hp Hs Hc ->|cuser cu body pkg Hu Hpkg He];
    try exact HP; unfold compensation;
    try destruct (users (state w) !! Job.userId j) as [u'|] eqn:Hu';
    simpl_state; try exact HP; try (by eapply Hupdate).
  pose proof (proj1 (User_findOne_None _ _) Hf) as Hno.
  pose proof (fresh_lookup (users (state w))) as Hfresh.
  set (k := fresh (dom (users (state w)))) in *. clearbody k.
  intros i i' v v'.
  destruct (decide (k = i)) as [Ei|Hi], (decide (k = i')) as [Ei'|Hi']; subst;
    rewrite ?lookup_insert_eq, ?lookup_insert_ne by done; try done.
  - intros [= <-] Hv' He. destruct (Hno _ _ Hv'). by rewrite <- He.
  - intros Hv [= <-] He. by destruct (Hno _ _ Hv).
  - apply HP.
Qed.

(** X7 (unique emails).  No two stored users share an email. *)
Theorem email_unique (ops : list Op) (id id' : ObjectId) (u u' : User.t) :
  users (state (run ops initial)) !! id = Some u →
  users (state (run ops initial)) !! id' = Some u' →
  User.email u = User.email u' →
  id = id'.
Proof. apply emails_distinct. Qed.

Lemma email_unique_witness : 0%nat = 0%nat.
Proof.
  apply (email_unique session 0 0
           (User.mk "alice@example.org" "secret" "Alice" "Liddell" 320)
           (User.mk "alice@example.org" "secret" "Alice" "Liddell" 320));
    vm_compute; reflexivity.
Defined.

(** X8 (second registration).  After a registration answered with 201, a
    registration with the same email is answered with 400, Email already
    registered, and writes nothing, whatever its other fields are. *)
Theorem register_twice (body body' : RegisterBody) (w : World) :
  code (eval (register body) w) = 201%nat →
  reg_email body' = reg_email body →
  register body' (exec (register body) w)
    = (json 400 (error_ "Email already registered"), exec (register body) w).
Proof.
  intros Hcode Hemail.
  assert (exec (register body) w
          = push w [ SaveUser (fresh (dom (users (state w)))) (new_user body);
                     CreateTransaction (welcome_bonus (fresh (dom (users (state w))))) ])
    as Hrun.
  { revert Hcode. unfold eval, exec, register. rewrite bind_run.
    destruct (User_findOne (reg_email body) w).1 as [p|] eqn:Hfind.
    { rewrite ret_run. cbn. discriminate. }
    intros _. unfold User_findOne, new_user_id. mrun. reflexivity. }
  rewrite Hrun. unfold register at 1. rewrite bind_run.
  destruct (User_findOne (reg_email body') _).1 as [p|] eqn:Hfind.
  - unfold User_findOne. by mrun.
  - exfalso. apply (proj1 (User_findOne_None _ _)) with
      (id := fresh (dom (users (state w)))) (u := new_user body) in Hfind.
    + by apply Hfind.
    + simpl_state. apply lookup_insert_eq.
Qed.

Lemma register_twice_witness :
  register (mkRegisterBody "alice@example.org" "other" "Al" "Ice")
    (exec (register alice) initial)
    = (json 400 (error_ "Email already registered"), exec (register alice) initial).
Proof.
  apply (register_twice alice (mkRegisterBody "alice@example.org" "other" "Al" "Ice")
           initial); vm_compute; reflexivity.
Defined.

(** X9 (refused requests write nothing).  A registration that is not
    answered with 201, and a submission or a purchase that is answered
    with neither success nor 500, that is with 400, 401 or 402, leave the
    database as it was. *)
Theorem rejected_requests_write_nothing (w : World) :
  (∀ body, code (eval (register body) w) ≠ 201%nat → exec (register body) w = w)
  ∧ (∀ userId body,
       code (eval (authenticate userId (generate body)) w) ≠ 202%nat →
       code (eval (authenticate userId (generate body)) w) ≠ 500%nat →
       exec (authenticate userId (generate body)) w = w
       ∧ code (eval (authenticate userId (generate body)) w) ∈ [400; 401; 402]%nat)
  ∧ (∀ userId body,
       code (eval (authenticate userId (purchase body)) w) ≠ 200%nat →
       code (eval (authenticate userId (purchase body)) w) ≠ 500%nat →
       exec (authenticate userId (purchase body)) w = w
       ∧ code (eval (authenticate userId (purchase body)) w) ∈ [400; 401]%nat).
Proof.
  split_and!.
  - intros body. unfold eval, exec, register. rewrite bind_run.
    destruct (User_findOne (reg_email body) w).1; [done|].
    unfold new_user_id. mrun. cbn. done.
  - intros userId body. unfold eval, exec. rewrite authenticate_run.
    destruct (users (state w) !! userId) as [u|]; [|intros _ _; split; [done|set_solver]].
    unfold generate. destruct (Js.truthy (gen_prompt body)); cbn [negb];
      [|intros _ _; split; [done|set_solver]].
    destruct (User.credits _ <? 1); [intros _ _; split; [done|set_solver]|].
    case_decide; [done|].
    unfold new_job_id. mrun. destruct (gen_prompt body); mrun; cbn; done.
  - intros userId body. unfold eval, exec. rewrite authenticate_run.
    destruct (users (state w) !! userId) as [u|]; [|intros _ _; split; [done|set_solver]].
    unfold purchase. cbn zeta. destruct (packages _).
    + mrun. destruct (purchase_entry _ _ _); mrun; cbn; done.
    + case_bool_decide; [done|]. intros _ _; split; [done|set_solver].
Qed.

Lemma rejected_requests_write_nothing_witness :
  exec (authenticate 0 (generate cat)) broke = broke
  ∧ code (eval (authenticate 0 (generate cat)) broke) ∈ [400; 401; 402]%nat.
Proof.
  destruct (rejected_requests_write_nothing broke) as (_ & Hgenerate & _).
  apply Hgenerate; vm_compute; lia.
Defined.

(** ** GET /api/images/jobs/:id *)

Lemma GET_job_run id userId w :
  GET_job id userId w =
    (match jobs (state w) !! id with
     | Some job =>
         if decide (Job.userId job = userId) then sent 200 (job_view id job)
         else refused 404 "Job not found"
     | None => refused 404 "Job not found"
     end, w).
Proof.
  unfold GET_job, Job_findOne. rewrite bind_run, gets_run. cbn [fst snd].
  destruct (jobs (state w) !! id) as [job|]; [|done]. by case_decide.
Qed.

(** X10 (a job is readable by its owner only).  The job that a
    submission announces can be read by its owner, with the submitted
    prompt, in every later world; any other user gets 404. *)
Theorem submitted_job_is_private (ops ops' : list Op) (userId : ObjectId)
    (body : GenerateBody) (jobId : ObjectId) (status : Job.Status) :
  eval (authenticate userId (generate body)) (run ops initial)
    = json 202 (accepted jobId status) →
  let w := run (ops ++ [POST_generate userId body] ++ ops') initial in
  (∃ view, GET_job jobId userId w = (sent 200 view, w)
           ∧ view_id view = jobId ∧ Js.str (view_prompt view) = gen_prompt body)
  ∧ ∀ other, other ≠ userId →
      GET_job jobId other w = (refused 404 "Job not found", w).
Proof.
  intros Haccepted w.
  assert (jobs (state (run (ops ++ [POST_generate userId body]) initial)) !! jobId
          = Some (new_job userId body)
          ∧ Js.str (stored_prompt (gen_prompt body)) = gen_prompt body) as [Hjob Hstr].
  { rewrite run_snoc. cbn [step]. rewrite exec_bind_ret.
    revert Haccepted. unfold eval, exec. rewrite authenticate_run.
    destruct (users (state (run ops initial)) !! userId) as [u|]; [|done].
    unfold generate. destruct (Js.truthy (gen_prompt body)); cbn [negb]; [|done].
    destruct (User.credits _ <? 1); [done|].
    case_decide; [done|].
    unfold new_job_id. mrun. destruct (gen_prompt body) as [| |prompt|]; mrun; try done.
    cbn. intros [= <- _]. split; [apply lookup_insert_eq|done]. }
  destruct (job_run ops' _ _ _ Hjob) as (j' & Hj' & Hu & Hp & _).
  rewrite <- run_app in Hj'.
  assert (run ((ops ++ [POST_generate userId body]) ++ ops') initial = w) as Hw
    by (unfold w; by rewrite <- app_assoc).
  rewrite Hw in Hj'.
  split.
  - exists (job_view jobId j'). rewrite GET_job_run, Hj', Hu. cbn.
    rewrite decide_True by done. split_and!; [done..|]. by rewrite Hp.
  - intros other Hother. rewrite GET_job_run, Hj', Hu. cbn.
    by rewrite decide_False.
Qed.

Lemma submitted_job_is_private_witness :
  let w := run ([ POST_register alice ] ++ [ POST_generate 0 cat ]
                ++ [ worker overloaded_env 0 ]) initial in
  (∃ view, GET_job 0 0 w = (sent 200 view, w)
           ∧ view_id view = 0%nat ∧ Js.str (view_prompt view) = gen_prompt cat)
  ∧ ∀ other, other ≠ 0%nat →
      GET_job 0 other w = (refused 404 "Job not found", w).
Proof.
  apply (submitted_job_is_private [ POST_register alice ] [ worker overloaded_env 0 ]
           0 cat 0 Job.pending).
  vm_compute. reflexivity.
Defined.

(** ** GET /api/analytics/stats *)

Lemma filter_ext_elem {A} (P Q : A → Prop) `{∀ x, Decision (P x)} `{∀ x, Decision (Q x)}
    (l : list A) :
  (∀ x, x ∈ l → (P x ↔ Q x)) → filter P l = filter Q l.
Proof.
  induction l as [|x l IH]; intros Hl; [done|].
  rewrite !filter_cons. rewrite IH by (intros y Hy; apply Hl; by right).
  pose proof (Hl x (list_elem_of_here _ _)). repeat case_decide; tauto || done.
Qed.

Lemma filter_length_impl {A} (P Q : A → Prop) `{∀ x, Decision (P x)} `{∀ x, Decision (Q x)}
    (l : list A) :
  (∀ x, P x → Q x) → (length (filter P l) ≤ length (filter Q l))%nat.
Proof.
  intros Himpl. induction l as [|x l IH]; [done|].
  rewrite !filter_cons. pose proof (Himpl x). repeat case_decide; cbn; tauto || lia.
Qed.

Lemma count_ext {A} (P Q : nat * A → Prop) `{∀ p, Decision (P p)} `{∀ p, Decision (Q p)}
    (m : gmap nat A) :
  (∀ k y, m !! k = Some y → (P (k, y) ↔ Q (k, y))) →
  length (filter Q (map_to_list m)) = length (filter P (map_to_list m)).
Proof.
  intros Hm. f_equal. apply filter_ext_elem. intros [k y] Hin.
  apply elem_of_map_to_list in Hin. symmetry. by apply Hm.
Qed.

Lemma count_fresh {A} (P Q : nat * A → Prop) `{∀ p, Decision (P p)} `{∀ p, Decision (Q p)}
    (m : gmap nat A) i x :
  m !! i = None →
  (∀ k y, m !! k = Some y → (P (k, y) ↔ Q (k, y))) →
  length (filter Q (map_to_list (<[i := x]> m)))
  = ((if decide (Q (i, x)) then 1 else 0) + length (filter P (map_to_list m)))%nat.
Proof.
  intros Hi Hm. rewrite (map_to_list_insert m i x Hi), filter_cons.
  case_decide; cbn [length]; by rewrite (count_ext P Q m Hm).
Qed.

Lemma count_update {A} (P Q : nat * A → Prop) `{∀ p, Decision (P p)} `{∀ p, Decision (Q p)}
    (m : gmap nat A) i x x' :
  m !! i = Some x →
  (P (i, x) ↔ Q (i, x')) →
  (∀ k y, k ≠ i → m !! k = Some y → (P (k, y) ↔ Q (k, y))) →
  length (filter Q (map_to_list (<[i := x']> m))) = length (filter P (map_to_list m)).
Proof.
  intros Hi Hx Hm.
  rewrite <- (insert_delete_eq m i x').
  rewrite <- (insert_delete_id m i x Hi) at 2.
  rewrite (count_fresh P Q (delete i m) i x') by
    (try apply lookup_delete_eq;
     intros k y [Hk Hy]%lookup_delete_Some; by apply Hm).
  rewrite (count_fresh P P (delete i m) i x) by (try apply lookup_delete_eq; done).
  repeat case_decide; tauto || lia.
Qed.

Lemma usage_snoc userId s s' t :
  transactions s' = transactions s ++ [t] →
  usageTransactions userId s'
  = usageTransactions userId s
    ++ (if decide (Transaction.userId t = userId ∧ Transaction.type t = Transaction.usage)
        then [t] else []).
Proof.
  unfold usageTransactions. intros ->.
  rewrite filter_app, filter_cons, filter_nil. by case_decide.
Qed.

Lemma usage_same userId s s' :
  transactions s' = transactions s → usageTransactions userId s' = usageTransactions userId s.
Proof. unfold usageTransactions. by intros ->. Qed.

Lemma sum_abs_debits l a :
  Forall (λ t, Transaction.credits t = -1) l →
  foldl (λ sum t, sum + Z.abs (Transaction.credits t)) a l = a + Z.of_nat (length l).
Proof.
  intros Hl. revert a. induction Hl as [|t l Ht _ IH]; intros a; cbn [foldl length].
  - lia.
  - rewrite IH, Ht. lia.
Qed.

(** Every usage entry debits one credit, and a user has as many usage
    entries as jobs whose worker has been started or is waiting. *)
Lemma usage_counts_jobs ops :
  let s := state (run ops initial) in
  ∀ userId,
    Forall (λ t, Transaction.credits t = -1) (usageTransactions userId s)
    ∧ length (usageTransactions userId s) = jobs_charged userId s.
Proof.
  cbn zeta.
  apply (run_keeps (λ s, ∀ userId,
           Forall (λ t, Transaction.credits t = -1) (usageTransactions userId s)
           ∧ length (usageTransactions userId s) = jobs_charged userId s));
    [|apply Inv_initial|by intros].
  intros w op es (_ & _ & _ & HL) HP HO uid. destruct (HP uid) as [Hshape Hcount].
  destruct HO as [|body id Hf ->| | |userId u body prompt jobId Hu Hp Hnonempty Hc ->| |
                 |userId u body pkg entry Hu Hpkg He|
                 |env jobId Hd Hnone|env jobId j ms r Hd Hj Hpre Hr
                 |env jobId j ms error Hd Hj Hpre
                 |cuser cu body cjob Hu Hp Hs Hc ->|cuser cu body pkg Hu Hpkg He];
    try (split; assumption).
  - (* register *)
    rewrite (usage_snoc uid (state w) _ (welcome_bonus (fresh (dom (users (state w))))))
      by (by simpl_state).
    rewrite decide_False by (cbn; intros [_ [=]]). rewrite app_nil_r.
    split; [done|]. rewrite Hcount. unfold jobs_charged. by simpl_state.
  - (* generate *)
    rewrite (usage_snoc uid (state w) _
               (usage_entry userId (fresh (dom (jobs (state w)))) prompt))
      by (by simpl_state).
    pose proof (fresh_lookup (jobs (state w))) as Hfresh.
    set (jid := fresh (dom (jobs (state w)))) in *. clearbody jid.
    unfold jobs_charged. simpl_state.
    rewrite (count_fresh (charged uid (detached (state w)))
               (charged uid ({[jid]} ∪ detached (state w)))) by
      (try done; intros k y Hk; unfold charged; cbn;
       assert (k ≠ jid) by (intros ->; congruence); set_solver).
    fold (jobs_charged uid (state w)). unfold charged at 1. cbn.
    destruct (decide (userId = uid)) as [->|Hne].
    + rewrite decide_True by done. rewrite decide_True by (split; [done|set_solver]).
      rewrite Forall_app, length_app. cbn.
      split; [split; [done|by constructor]|]. lia.
    + rewrite decide_False by (intros [? _]; done).
      rewrite decide_False by (intros [? _]; done).
      rewrite app_nil_r. by split.
  - (* purchase *)
    apply purchase_entry_Some in He as (packageId & paymentMethod & _ & _ & ->).
    rewrite (usage_snoc uid (state w) _
               (Transaction.mk userId Transaction.purchase (price pkg) (credits pkg)
                  ("Purchased " +:+ Js.toString (pur_packageId body) +:+ " package")
                  Transaction.completed
                  (Transaction.mkMetadata None packageId paymentMethod)))
      by (by simpl_state).
    rewrite decide_False by (cbn; intros [_ [=]]). rewrite app_nil_r.
    split; [done|]. rewrite Hcount. unfold jobs_charged. by simpl_state.
  - (* worker, no job *)
    rewrite (usage_same uid (state w)) by (by simpl_state). split; [done|].
    rewrite Hcount. unfold jobs_charged. simpl_state.
    symmetry. apply (count_ext (charged uid (detached (state w)))
             (charged uid (detached (state w) ∖ {[jobId]}))).
    intros k y Hk. unfold charged. cbn.
    assert (k ≠ jobId) by (intros ->; congruence). set_solver.
  - (* worker, completed *)
    destruct (detached_pending _ _ (HL jobId) Hd) as (j' & Hj' & Hst & _).
    rewrite Hj in Hj'. injection Hj' as <-.
    rewrite (usage_same uid (state w)) by (by simpl_state). split; [done|].
    rewrite Hcount. unfold jobs_charged. simpl_state. rewrite insert_insert_eq.
    symmetry. apply (count_update (charged uid (detached (state w)))
             (charged uid (detached (state w) ∖ {[jobId]})) _ jobId j); [done| |].
    + unfold charged. cbn. rewrite Hst. split; intros [? _]; (split; [done|]); auto.
    + intros k y Hne Hk. unfold charged. cbn. set_solver.
  - (* worker, failed *)
    destruct (detached_pending _ _ (HL jobId) Hd) as (j' & Hj' & Hst & _).
    rewrite Hj in Hj'. injection Hj' as <-.
    assert (usageTransactions uid
              (state (push w ([Start jobId; SaveJob jobId (Job.set_status Job.processing j)]
                              ++ attempt_log jobId 3 ms
                              ++ [SaveJob jobId (failed_job error j)]
                              ++ compensation (state w) jobId j)))
            = usageTransactions uid (state w)) as ->.
    { unfold compensation. destruct (users (state w) !! Job.userId j) as [u'|].
      - rewrite (usage_snoc uid (state w) _ (refund_entry (Job.userId j) jobId))
          by (by simpl_state).
        rewrite decide_False by (cbn; intros [_ [=]]). by rewrite app_nil_r.
      - apply usage_same. by simpl_state. }
    split; [done|]. rewrite Hcount. unfold jobs_charged.
    assert (jobs (state (push w ([Start jobId; SaveJob jobId (Job.set_status Job.processing j)]
                              ++ attempt_log jobId 3 ms
                              ++ [SaveJob jobId (failed_job error j)]
                              ++ compensation (state w) jobId j)))
            = <[jobId := failed_job error j]> (jobs (state w))
            ∧ detached (state (push w ([Start jobId; SaveJob jobId (Job.set_status Job.processing j)]
                              ++ attempt_log jobId 3 ms
                              ++ [SaveJob jobId (failed_job error j)]
                              ++ compensation (state w) jobId j)))
              = detached (state w) ∖ {[jobId]}) as [-> ->].
    { unfold compensation. destruct (users (state w) !! Job.userId j) as [u'|];
        simpl_state; by rewrite insert_insert_eq. }
    symmetry. apply (count_update (charged uid (detached (state w)))
             (charged uid (detached (state w) ∖ {[jobId]})) _ jobId j); [done| |].
    + unfold charged. cbn. rewrite Hst. split; intros [? _]; (split; [done|]); auto.
    + intros k y Hne Hk. unfold charged. cbn. set_solver.
  - (* generate, thrown after the debit *)
    rewrite (usage_same uid (state w)) by (by simpl_state). split; [done|].
    pose proof (fresh_lookup (jobs (state w))) as Hfresh.
    pose proof (HL (fresh (dom (jobs (state w))))) as HLj.
    unfold lifecycle in HLj. cbn zeta in HLj. rewrite Hfresh in HLj.
    destruct HLj as (Hnd & _).
    set (jid := fresh (dom (jobs (state w)))) in *. clearbody jid.
    unfold jobs_charged. simpl_state.
    rewrite (count_fresh (charged uid (detached (state w)))
               (charged uid (detached (state w)))) by done.
    fold (jobs_charged uid (state w)).
    rewrite decide_False; [by rewrite Hcount|].
    unfold charged. cbn. intros [_ [?|?]]; done.
Qed.

(** X11 (analytics totals).  In every reachable state the
    [totalCreditsUsed] of a user is the number of the jobs of the user
    whose worker has been started or is waiting to start, refunded or
    not.  It is at least [totalImages] and at most the number of the jobs
    of the user: a job left behind by a submission that threw after the
    debit is not counted. *)
Theorem credits_used_counts_jobs (ops : list Op) (userId : ObjectId) :
  let s := state (run ops initial) in
  totalCreditsUsed userId s
  = Z.of_nat (length (filter (λ p, Job.userId p.2 = userId
                                   ∧ (Job.status p.2 ≠ Job.pending ∨ p.1 ∈ detached s))
                        (map_to_list (jobs s))))
  ∧ Z.of_nat (totalImages userId s) ≤ totalCreditsUsed userId s
  ∧ totalCreditsUsed userId s ≤ Z.of_nat (jobs_total userId s).
Proof.
  cbn zeta. destruct (usage_counts_jobs ops userId) as [Hshape Hcount].
  assert (totalCreditsUsed userId (state (run ops initial))
          = Z.of_nat (jobs_charged userId (state (run ops initial)))) as Hused.
  { unfold totalCreditsUsed. rewrite sum_abs_debits by done. by rewrite Hcount. }
  split_and!.
  - exact Hused.
  - rewrite Hused. apply inj_le. unfold totalImages, jobs_charged.
    apply filter_length_impl. intros [i j] [Hu Hst]. split; [done|].
    left. cbn in *. by rewrite Hst.
  - rewrite Hused. apply inj_le. unfold jobs_charged, jobs_total.
    apply filter_length_impl. by intros [i j] [Hu _].
Qed.

(** ** Balance and ledger *)

Lemma balanced_same s s' :
  users s' = users s → transactions s' = transactions s →
  balanced s → balanced s'.
Proof. unfold balanced. intros Hu Ht. rewrite Hu, Ht. done. Qed.

Lemma balanced_entry s s' userId u t :
  users s !! userId = Some u →
  Transaction.userId t = userId →
  users s' = <[userId := User.set_credits (User.credits u + Transaction.credits t) u]> (users s) →
  transactions s' = transactions s ++ [t] →
  balanced s → balanced s'.
Proof.
  unfold balanced. intros Hu Ht -> -> [Hl Hb]. split.
  - intros t' [Hin| ->%list_elem_of_singleton]%elem_of_app.
    + apply lookup_insert_is_Some'. right. by apply Hl.
    + rewrite Ht. apply lookup_insert_is_Some'. by left.
  - intros uid u'. rewrite ledger_sum_snoc, Ht.
    destruct (decide (userId = uid)) as [->|Hne].
    + rewrite lookup_insert_eq. intros [= <-]. cbn. rewrite (Hb _ _ Hu). done.
    + rewrite lookup_insert_ne by done. intros Hu'. rewrite (Hb _ _ Hu'). lia.
Qed.

Lemma balanced_new s s' userId u t :
  users s !! userId = None →
  Transaction.userId t = userId →
  Transaction.credits t = User.credits u →
  users s' = <[userId := u]> (users s) →
  transactions s' = transactions s ++ [t] →
  balanced s → balanced s'.
Proof.
  unfold balanced. intros Hu Ht Hc -> -> [Hl Hb]. split.
  - intros t' [Hin| ->%list_elem_of_singleton]%elem_of_app.
    + apply lookup_insert_is_Some'. right. by apply Hl.
    + rewrite Ht. apply lookup_insert_is_Some'. by left.
  - intros uid u'. rewrite ledger_sum_snoc, Ht.
    destruct (decide (userId = uid)) as [->|Hne].
    + rewrite lookup_insert_eq. intros [= <-].
      rewrite ledger_sum_none; [lia|].
      intros t' Hin Heq. apply Hl in Hin as [x Hx]. congruence.
    + rewrite lookup_insert_ne by done. intros Hu'. rewrite (Hb _ _ Hu'). lia.
Qed.

Lemma capped_mono cap cap' s : cap ≤ cap' → capped cap s → capped cap' s.
Proof. intros Hle Hc userId u Hu. specialize (Hc _ _ Hu). lia. Qed.

Lemma package_credits_le packageId pkg :
  packages packageId = Some pkg → credits pkg ≤ 600.
Proof.
  intros [[_ ->]|[[_ ->]|[_ ->]]]%packages_defined; cbn; lia.
Qed.

Lemma castable_entry userId pkg body :
  castable (pur_packageId body) = true →
  castable (pur_paymentMethod body) = true →
  is_Some (purchase_entry userId pkg body).
Proof.
  unfold castable, purchase_entry, metadata_string.
  destruct (Js.castString (pur_packageId body)); [done| |];
    destruct (Js.castString (pur_paymentMethod body)); try done; intros _ _; by eexists.
Qed.

(** One operation with well-typed fields keeps the balances equal to the
    ledger sums, as long as the sums are exact. *)
Lemma typed_step w op es cap :
  Outcome w op es → well_typed op = true →
  solvent (state w) → 0 ≤ cap → cap + 600 < 2 ^ 53 →
  balanced (state w) → capped cap (state w) →
  balanced (state (push w es)) ∧ capped (cap + 600) (state (push w es)).
Proof.
  intros HO Htyped Hsolvent Hcap Hsafe Hb Hc.
  assert (capped (cap + 600) (state w)) as Hc' by (eapply capped_mono; [|exact Hc]; lia).
  destruct HO as [|body id Hf ->| | |userId u body prompt jobId Hu Hp Hnonempty Hcr ->| |
                 |userId u body pkg entry Hu Hpkg He| | |env jobId j ms r Hd Hj Hpre
                 |env jobId j ms error Hd Hj Hpre
                 |cuser cu body cjob Hu Hp Hs Hcr ->|cuser cu body pkg Hu Hpkg He];
    rewrite ?push_nil; try (split; [exact Hb|exact Hc']).
  - (* register *)
    split.
    + eapply (balanced_new _ _ _ (new_user body) (welcome_bonus _));
        [apply fresh_lookup| | | | |exact Hb]; reflexivity.
    + unfold capped. simpl_state. apply users_insert_keeps; [exact Hc'|]. cbn. lia.
  - (* generate *)
    pose proof (Hc _ _ Hu) as Hle.
    rewrite (binary64_exact (User.credits u - 1)) by lia. split.
    + eapply (balanced_entry _ _ userId u (usage_entry userId _ prompt));
        [eassumption|reflexivity| |reflexivity|exact Hb].
      reflexivity.
    + unfold capped. simpl_state. apply users_insert_keeps; [exact Hc'|]. cbn. lia.
  - (* purchase *)
    pose proof (Hc _ _ Hu) as Hle. pose proof (Hsolvent _ _ Hu) as Hge.
    pose proof (package_credits_le _ _ Hpkg) as Hpk.
    pose proof (package_credits_positive _ _ Hpkg) as Hpos.
    apply purchase_entry_Some in He as (packageId & paymentMethod & _ & _ & ->).
    rewrite (binary64_exact (User.credits u + credits pkg)) by lia. split.
    + eapply (balanced_entry _ _ userId u);
        [eassumption| | |reflexivity|exact Hb]; reflexivity.
    + unfold capped. simpl_state. apply users_insert_keeps; [exact Hc'|]. cbn. lia.
  - (* the worker completes the job *)
    split.
    + eapply balanced_same; [| |exact Hb]; simpl_state; reflexivity.
    + unfold capped. by simpl_state.
  - (* the worker fails the job *)
    unfold compensation.
    destruct (users (state w) !! Job.userId j) as [u|] eqn:Hu.
    + pose proof (Hc _ _ Hu) as Hle. pose proof (Hsolvent _ _ Hu) as Hge.
      rewrite (binary64_exact (User.credits u + 1)) by lia. split.
      * eapply (balanced_entry _ _ (Job.userId j) u (refund_entry (Job.userId j) jobId));
          [eassumption|reflexivity| | |exact Hb]; simpl_state; reflexivity.
      * unfold capped. simpl_state. apply users_insert_keeps; [exact Hc'|]. cbn. lia.
    + split.
      * eapply balanced_same; [| |exact Hb]; simpl_state; reflexivity.
      * unfold capped. by simpl_state.
  - (* a submission that throws carries a prompt that is not a string *)
    cbn in Htyped. destruct (gen_prompt body) as [| |prompt|]; try done.
    by destruct (Hp prompt).
  - (* a purchase that throws carries a field that cannot be stored *)
    cbn in Htyped. apply andb_prop in Htyped as [H1 H2].
    destruct (castable_entry cuser pkg body H1 H2) as [entry Hentry]. congruence.
Qed.

Lemma typed_run ops w cap :
  Inv w → forallb well_typed ops = true →
  0 ≤ cap → cap + 600 * Z.of_nat (length ops) < 2 ^ 53 →
  balanced (state w) → capped cap (state w) →
  balanced (state (run ops w)).
Proof.
  revert w cap. induction ops as [|op ops IH]; intros w cap HI Htyped Hcap Hsafe Hb Hc;
    [done|].
  cbn in Htyped. apply andb_prop in Htyped as [Hop Hops].
  cbn [length] in Hsafe. cbn.
  destruct (step_outcome op w) as (es & HO & Hrun).
  pose proof HI as (_ & Hsolvent & _).
  destruct (typed_step w op es cap HO Hop Hsolvent Hcap) as [Hb' Hc']; [lia|done|done|].
  apply (IH _ (cap + 600)).
  - by apply Inv_step.
  - exact Hops.
  - lia.
  - lia.
  - by rewrite Hrun.
  - by rewrite Hrun.
Qed.

(** X12 (balance and ledger, for well-typed requests).  After a sequence
    of operations in which every submission carries a string as prompt
    and every purchase a [packageId] and a [paymentMethod] that can be
    stored, and which is short enough for every sum of credits to be
    exact, the balance of every stored user is the sum of the [credits]
    of the ledger entries of the user. *)
Theorem typed_requests_conserve (ops : list Op) (userId : ObjectId) (u : User.t) :
  forallb well_typed ops = true →
  600 * Z.of_nat (length ops) < 2 ^ 53 →
  users (state (run ops initial)) !! userId = Some u →
  User.credits u
  = foldr Z.add 0
      (Transaction.credits
         <$> filter (λ t, Transaction.userId t = userId)
               (transactions (state (run ops initial)))).
Proof.
  intros Htyped Hshort Hu.
  assert (balanced (state (run ops initial))) as [_ Hb].
  { apply (typed_run ops initial 0); [apply Inv_initial|exact Htyped|done|lia| |].
    - split; [by intros t ?%elem_of_nil|]. intros i v Hv. cbn in Hv.
      by rewrite lookup_empty in Hv.
    - intros i v Hv. cbn in Hv. by rewrite lookup_empty in Hv. }
  by apply Hb.
Qed.

Lemma typed_requests_conserve_witness :
  User.credits (User.mk "alice@example.org" "secret" "Alice" "Liddell" 320)
  = foldr Z.add 0
      (Transaction.credits
         <$> filter (λ t, Transaction.userId t = 0%nat)
               (transactions (state (run session initial)))).
Proof.
  apply (typed_requests_conserve session 0); vm_compute; reflexivity.
Defined.

(** ** More on the generation worker *)

Lemma retry_loop_S textToImage jobId job r m le w :
  retry_loop textToImage jobId job (S r) m le w =
    match race (textToImage (4 - S r)%nat
                  (mkArgs m (Job.prompt job) (or_else (Job.negativePrompt job) ""))) with
    | inr blob => (mkLoop (Some blob) le m, push w [Attempt jobId (4 - S r) m])
    | inl err =>
        retry_loop textToImage jobId job r
          (if decide (0 < r)%nat then fallback m else m) (Some err)
          (push w [Attempt jobId (4 - S r) m])
    end.
Proof.
  cbn [retry_loop]. rewrite bind_run, emit_run. cbn [fst snd]. by destruct (race _).
Qed.

Lemma processImageGeneration_thrown env jobId w j ms error :
  jobs (state w) !! jobId = Some j →
  generation_attempt env jobId w
    = (Some error,
       push w ([SaveJob jobId (Job.set_status Job.processing j)]
               ++ attempt_log jobId 3 ms)) →
  exec (processImageGeneration env jobId) w
    = push w ([SaveJob jobId (Job.set_status Job.processing j)]
              ++ attempt_log jobId 3 ms
              ++ [SaveJob jobId (failed_job error j)]
              ++ compensation (state w) jobId j).
Proof.
  intros Hj Hrun. unfold exec, processImageGeneration. rewrite bind_run, Hrun.
  cbn [fst snd].
  rewrite (generation_failed_spec _ _ _ (Job.set_status Job.processing j)).
  2:{ rewrite state_push, !replay_app, replay_attempt_log. cbn. apply lookup_insert_eq. }
  cbn [snd]. rewrite push_push. f_equal.
  rewrite state_push, !replay_app, replay_attempt_log.
  unfold compensation. cbn. reflexivity.
Qed.

Lemma generation_attempt_run env textToImage jobId j w :
  hf env = Some textToImage →
  jobs (state w) !! jobId = Some j →
  generation_attempt env jobId w =
    let job := Job.set_status Job.processing j in
    let r := retry_loop textToImage jobId job 3 (initial_model (Job.model j)) None
               (push w [SaveJob jobId job]) in
    match imageBlob r.1 with
    | None =>
        (Some (default (Js.mkError "Failed to generate image after retries")
                 (lastError r.1)), r.2)
    | Some blob =>
        let filename := "image-" +:+ pretty jobId +:+ "-"
                          +:+ pretty (now env 1) +:+ ".png" in
        match writeFileSync env (imagesDir env +:+ "/" +:+ filename) blob with
        | Some thrown => (Some thrown, r.2)
        | None =>
            (None,
             push r.2 [SaveJob jobId
                         (Job.set_result
                            (generated env job filename (modelId r.1)
                               (now env 2 - now env 0))
                            (Job.set_status Job.completed job))])
        end
    end.
Proof.
  intros Hhf Hj. unfold generation_attempt, Job_findById.
  rewrite bind_run, gets_run. cbn [fst snd]. rewrite Hj. cbn zeta.
  rewrite bind_run, emit_run. cbn [fst snd]. rewrite Hhf, bind_run.
  destruct (retry_loop _ _ _ _ _ _ _) as [loop w1]. cbn [fst snd].
  destruct (imageBlob loop); [|done].
  destruct (writeFileSync _ _ _); [done|]. by mrun.
Qed.

(** X13 (the first success ends the loop).  When the attempts up to
    number [k] fail and attempt [k + 1] succeeds, the worker makes exactly
    [k + 1] attempts, completes the job with the model of the last one as
    [result.model], and changes neither balance nor ledger. *)
Theorem first_success_completes (env : Env) (textToImage : Provider) (w : World)
    (jobId : ObjectId) (j : Job.t) (k : nat) (blob : string) :
  hf env = Some textToImage →
  jobs (state w) !! jobId = Some j →
  (k < 3)%nat →
  (∀ n args, (n ≤ k)%nat → ∃ err, race (textToImage n args) = inl err) →
  (∀ args, race (textToImage (S k) args) = inr blob) →
  (∀ path, writeFileSync env path blob = None) →
  let w' := exec (processImageGeneration env jobId) w in
  let models := chain 3 (initial_model (Job.model j)) in
  attempts jobId (during (processImageGeneration env jobId) w) = take (S k) models
  ∧ (∃ j', jobs (state w') !! jobId = Some j'
           ∧ Job.status j' = Job.completed
           ∧ Job.error j' = Job.error j
           ∧ Job.result_model (Job.result j') = models !! k)
  ∧ users (state w') = users (state w)
  ∧ transactions (state w') = transactions (state w).
Proof.
  intros Hhf Hj Hk Hfail Hok Hdisk w' models.
  assert (∃ job' ms, job' = Job.set_status Job.processing j ∧
            ms = take (S k) models ∧
            generation_attempt env jobId w
            = (None,
               push w ([SaveJob jobId job'] ++ attempt_log jobId 3 ms
                       ++ [SaveJob jobId
                             (Job.set_result
                                (generated env job'
                                   ("image-" +:+ pretty jobId +:+ "-"
                                      +:+ pretty (now env 1) +:+ ".png")
                                   (default "" (models !! k))
                                   (now env 2 - now env 0))
                                (Job.set_status Job.completed job'))])) ∧
            is_Some (models !! k))
    as (job' & ms & -> & -> & Hrun & Hmk).
  { eexists _, _. split; [reflexivity|]. split; [reflexivity|].
    rewrite (generation_attempt_run env textToImage jobId j w Hhf Hj). cbn zeta.
    destruct k as [|[|[|k]]]; [| | |lia].
    - rewrite retry_loop_S, Hok. cbn [fst snd imageBlob]. rewrite Hdisk.
      rewrite !push_push. split; [reflexivity|]. by eexists.
    - rewrite retry_loop_S.
      destruct (Hfail 1%nat (mkArgs (initial_model (Job.model j))
                               (Job.prompt (Job.set_status Job.processing j))
                               (or_else (Job.negativePrompt
                                           (Job.set_status Job.processing j)) "")))
        as [e1 He1]; [lia|]. change (4 - 3)%nat with 1%nat. rewrite He1.
      rewrite retry_loop_S, Hok. cbn [fst snd imageBlob]. rewrite Hdisk.
      rewrite !push_push. split; [reflexivity|]. by eexists.
    - rewrite retry_loop_S.
      destruct (Hfail 1%nat (mkArgs (initial_model (Job.model j))
                               (Job.prompt (Job.set_status Job.processing j))
                               (or_else (Job.negativePrompt
                                           (Job.set_status Job.processing j)) "")))
        as [e1 He1]; [lia|]. change (4 - 3)%nat with 1%nat. rewrite He1.
      rewrite retry_loop_S.
      destruct (Hfail 2%nat (mkArgs (fallback (initial_model (Job.model j)))
                               (Job.prompt (Job.set_status Job.processing j))
                               (or_else (Job.negativePrompt
                                           (Job.set_status Job.processing j)) "")))
        as [e2 He2]; [lia|]. change (4 - 2)%nat with 2%nat.
      rewrite decide_True by lia. rewrite He2.
      rewrite retry_loop_S, Hok. cbn [fst snd imageBlob]. rewrite Hdisk.
      rewrite !push_push. split; [reflexivity|]. by eexists. }
  assert (length (take (S k) models) ≤ 3)%nat as Hlen.
  { rewrite length_take. unfold models. rewrite chain_length. lia. }
  assert (w' = (generation_attempt env jobId w).2) as Hw'.
  { unfold w', exec, processImageGeneration. rewrite bind_run, Hrun. done. }
  rewrite Hrun in Hw'. cbn [snd] in Hw'.
  split_and!.
  - rewrite (during_push _ _ _ Hw').
    rewrite !attempts_app, attempts_attempt_log by done.
    by rewrite !attempts_SaveJob, app_nil_r.
  - eexists. rewrite Hw'. split_and!.
    + rewrite state_push, !replay_app, replay_attempt_log. cbn. apply lookup_insert_eq.
    + reflexivity.
    + reflexivity.
    + clear -Hk. destruct k as [|[|[|k]]]; [reflexivity..|lia].
  - rewrite Hw', state_push, !replay_app, replay_attempt_log. reflexivity.
  - rewrite Hw', state_push, !replay_app, replay_attempt_log. reflexivity.
Qed.

Lemma first_success_completes_witness :
  let w' := exec (processImageGeneration second_try_env 0) submitted in
  let models := chain 3 (initial_model "midjourney") in
  attempts 0 (during (processImageGeneration second_try_env 0) submitted)
    = take 2 models
  ∧ (∃ j', jobs (state w') !! 0%nat = Some j'
           ∧ Job.status j' = Job.completed
           ∧ Job.error j' = Job.mkError None
           ∧ Job.result_model (Job.result j') = models !! 1%nat)
  ∧ users (state w') = users (state submitted)
  ∧ transactions (state w') = transactions (state submitted).
Proof.
  apply (first_success_completes second_try_env second_try submitted 0
           (new_job 0 cat_midjourney) 1 "PNG").
  - reflexivity.
  - vm_compute. reflexivity.
  - lia.
  - intros n args Hn. eexists. unfold second_try. rewrite decide_False by lia.
    reflexivity.
  - reflexivity.
  - reflexivity.
Defined.

(** X14 (a failed write fails the job).  An image that cannot be
    written to disk fails the job although the provider has answered at
    the first attempt: the job is saved as [failed] with the message of
    the error thrown by [writeFileSync], or "Image generation failed"
    when that message is empty, and is otherwise unchanged; the balance
    of the owner is replaced by the balance plus 1 (as a Number: exactly
    plus 1 below 2^53 in absolute value) and a refund entry is appended. *)
Theorem disk_failure_refunds (env : Env) (textToImage : Provider) (w : World)
    (jobId : ObjectId) (j : Job.t) (u : User.t) (blob : string) (thrown : Js.Error) :
  hf env = Some textToImage →
  jobs (state w) !! jobId = Some j →
  users (state w) !! Job.userId j = Some u →
  (∀ args, race (textToImage 1%nat args) = inr blob) →
  (∀ path, writeFileSync env path blob = Some thrown) →
  let w' := exec (processImageGeneration env jobId) w in
  let msg := if decide (Js.message thrown = "") then "Image generation failed"
             else Js.message thrown in
  attempts jobId (during (processImageGeneration env jobId) w)
    = [initial_model (Job.model j)]
  ∧ jobs (state w') !! jobId
    = Some (Job.mk (Job.userId j) (Job.prompt j) (Job.negativePrompt j) (Job.model j)
              (Job.parameters j) Job.failed (Job.result j) (Job.mkError (Some msg)))
  ∧ (∃ credits',
        users (state w')
        = <[Job.userId j := User.mk (User.email u) (User.password u)
                              (User.firstName u) (User.lastName u) credits']>
            (users (state w))
        ∧ credits' = Js.binary64 (User.credits u + 1)
        ∧ (Z.abs (User.credits u + 1) < 2 ^ 53 → credits' = User.credits u + 1))
  ∧ transactions (state w')
    = transactions (state w)
      ++ [ Transaction.mk (Job.userId j) Transaction.refund 0%float 1
             "Refund for failed generation" Transaction.completed
             (Transaction.mkMetadata (Some jobId) None None) ].
Proof.
  intros Hhf Hj Hu Hok Hdisk w' msg.
  assert (generation_attempt env jobId w
          = (Some thrown,
             push w ([SaveJob jobId (Job.set_status Job.processing j)]
                     ++ attempt_log jobId 3 [initial_model (Job.model j)]))) as Hrun.
  { rewrite (generation_attempt_run env textToImage jobId j w Hhf Hj). cbn zeta.
    rewrite retry_loop_S, Hok. cbn [fst snd imageBlob]. rewrite Hdisk.
    by rewrite !push_push. }
  pose proof (processImageGeneration_thrown env jobId w j _ thrown Hj Hrun) as Hw'.
  fold w' in Hw'. unfold compensation in Hw'. rewrite Hu in Hw'.
  split_and!.
  - rewrite (during_push _ _ _ Hw'). reflexivity || (cbn; by rewrite !decide_True).
  - rewrite Hw'. simpl_state. rewrite lookup_insert_eq. reflexivity.
  - exists (Js.binary64 (User.credits u + 1)). split_and!.
    + rewrite Hw'. by simpl_state.
    + done.
    + apply binary64_exact.
  - rewrite Hw'. by simpl_state.
Qed.

Lemma disk_failure_refunds_witness :
  let env := mkEnv (Some (λ _ _, fulfils "PNG"))
               (λ _ _, Some (Js.mkError "ENOSPC: no space left on device"))
               (λ n, 1000 * Z.of_nat n) None "3000" "/app/generated-images" in
  let w' := exec (processImageGeneration env 0) submitted in
  let j := new_job 0 cat_midjourney in
  let u := User.mk "alice@example.org" "secret" "Alice" "Liddell" 99 in
  attempts 0 (during (processImageGeneration env 0) submitted)
    = [initial_model (Job.model j)]
  ∧ jobs (state w') !! 0%nat
    = Some (Job.mk (Job.userId j) (Job.prompt j) (Job.negativePrompt j) (Job.model j)
              (Job.parameters j) Job.failed (Job.result j)
              (Job.mkError (Some "ENOSPC: no space left on device")))
  ∧ (∃ credits',
        users (state w')
        = <[Job.userId j := User.mk (User.email u) (User.password u)
                              (User.firstName u) (User.lastName u) credits']>
            (users (state submitted))
        ∧ credits' = Js.binary64 (User.credits u + 1)
        ∧ (Z.abs (User.credits u + 1) < 2 ^ 53 → credits' = User.credits u + 1))
  ∧ transactions (state w')
    = transactions (state submitted)
      ++ [ Transaction.mk (Job.userId j) Transaction.refund 0%float 1
             "Refund for failed generation" Transaction.completed
             (Transaction.mkMetadata (Some 0%nat) None None) ].
Proof.
  apply (disk_failure_refunds _ (λ _ _, fulfils "PNG") submitted 0
           (new_job 0 cat_midjourney)
           (User.mk "alice@example.org" "secret" "Alice" "Liddell" 99) "PNG"
           (Js.mkError "ENOSPC: no space left on device"));
    try reflexivity; vm_compute; reflexivity.
Defined.

(** X15 (the last error is recorded).  When every attempt fails,
    the message stored with the job is the one of the third attempt, made
    with the second fallback of the first model, or the default text when
    that message is empty; a third attempt that times out leaves the
    timeout message. *)
Theorem last_error_is_recorded (env : Env) (textToImage : Provider) (w : World)
    (jobId : ObjectId) (j : Job.t) :
  hf env = Some textToImage →
  always_fails textToImage →
  jobs (state w) !! jobId = Some j →
  let third := mkArgs (fallback (fallback (initial_model (Job.model j))))
                 (Job.prompt j) (or_else (Job.negativePrompt j) "") in
  ∃ err,
    race (textToImage 3%nat third) = inl err
    ∧ (Job.error <$> jobs (state (exec (processImageGeneration env jobId) w)) !! jobId)
      = Some (Job.mkError
                (Some (if decide (Js.message err = "") then "Image generation failed"
                       else Js.message err)))
    ∧ (textToImage 3%nat third = hangs → Js.message err = "Request timeout after 60s").
Proof.
  intros Hhf Hfail Hj third.
  destruct (Hfail 3%nat third) as [err Herr]. exists err.
  assert (generation_attempt env jobId w
          = (Some err,
             push w ([SaveJob jobId (Job.set_status Job.processing j)]
                     ++ attempt_log jobId 3 (chain 3 (initial_model (Job.model j))))))
    as Hrun.
  { rewrite (generation_attempt_run env textToImage jobId j w Hhf Hj). cbn zeta.
    rewrite retry_loop_S.
    destruct (Hfail 1%nat (mkArgs (initial_model (Job.model j))
                             (Job.prompt (Job.set_status Job.processing j))
                             (or_else (Job.negativePrompt
                                         (Job.set_status Job.processing j)) "")))
      as [e1 He1]. change (4 - 3)%nat with 1%nat. rewrite He1.
    rewrite retry_loop_S.
    destruct (Hfail 2%nat (mkArgs (fallback (initial_model (Job.model j)))
                             (Job.prompt (Job.set_status Job.processing j))
                             (or_else (Job.negativePrompt
                                         (Job.set_status Job.processing j)) "")))
      as [e2 He2]. change (4 - 2)%nat with 2%nat.
    rewrite decide_True by lia. rewrite He2.
    rewrite retry_loop_S. change (4 - 1)%nat with 3%nat.
    rewrite decide_True by lia. fold third.
    change (mkArgs (fallback (fallback (initial_model (Job.model j))))
              (Job.prompt (Job.set_status Job.processing j))
              (or_else (Job.negativePrompt (Job.set_status Job.processing j)) ""))
      with third.
    rewrite Herr. cbn [retry_loop]. rewrite ret_run. cbn [fst snd imageBlob lastError].
    by rewrite !push_push. }
  pose proof (processImageGeneration_thrown env jobId w j _ err Hj Hrun) as Hw'.
  split_and!.
  - exact Herr.
  - rewrite Hw', state_push, !replay_app, jobs_compensation', replay_attempt_log.
    cbn [replay foldl apply_event jobs]. rewrite lookup_insert_eq. reflexivity.
  - intros Hhangs. rewrite Hhangs in Herr. by injection Herr as <-.
Qed.

Lemma last_error_is_recorded_witness :
  ∃ err,
    race (overloaded 3%nat (mkArgs OPENJOURNEY "a cat on a bicycle" "")) = inl err
    ∧ (Job.error <$> jobs (state (exec (processImageGeneration overloaded_env 0)
                                      submitted)) !! 0%nat)
      = Some (Job.mkError
                (Some (if decide (Js.message err = "") then "Image generation failed"
                       else Js.message err)))
    ∧ (overloaded 3%nat (mkArgs OPENJOURNEY "a cat on a bicycle" "") = hangs →
       Js.message err = "Request timeout after 60s").
Proof.
  apply (last_error_is_recorded overloaded_env overloaded submitted 0
           (new_job 0 cat_midjourney)).
  - reflexivity.
  - intros n args. eexists. reflexivity.
  - vm_compute. reflexivity.
Defined.

(** X16 (placeholder without an API key).  Without a provider the
    worker writes the job twice, as [processing] and then as [completed]
    with one placeholder image, whose URL ends in the job id and the
    printed width and height: the requested ones, or 1024 where the
    request gives none or a falsy one.  The provider is not called,
    neither balance nor ledger changes, and neither size is falsy. *)
Theorem placeholder_without_key (env : Env) (w : World) (jobId : ObjectId) (j : Job.t) :
  hf env = None →
  jobs (state w) !! jobId = Some j →
  let w' := exec (processImageGeneration env jobId) w in
  let size (requested : option Js.Number) :=
    match requested with
    | Some n => if Js.falsy n then Js.mkNumber false "1024" else n
    | None => Js.mkNumber false "1024"
    end in
  let width := size (Job.width (Job.parameters j)) in
  let height := size (Job.height (Job.parameters j)) in
  during (processImageGeneration env jobId) w
    = [ SaveJob jobId
          (Job.mk (Job.userId j) (Job.prompt j) (Job.negativePrompt j) (Job.model j)
             (Job.parameters j) Job.processing (Job.result j) (Job.error j));
        SaveJob jobId
          (Job.mk (Job.userId j) (Job.prompt j) (Job.negativePrompt j) (Job.model j)
             (Job.parameters j) Job.completed
             (Job.mkResult
                [ Job.mkImage
                    ("https://picsum.photos/seed/" +:+ pretty jobId +:+ "/"
                       +:+ Js.Number_toString width +:+ "/"
                       +:+ Js.Number_toString height)
                    width height None ]
                (Some 1000) None
                (Some "Add HUGGINGFACE_API_KEY to .env for real generation"))
             (Job.error j)) ]
  ∧ w' = push w (during (processImageGeneration env jobId) w)
  ∧ users (state w') = users (state w)
  ∧ transactions (state w') = transactions (state w)
  ∧ Js.falsy width = false ∧ Js.falsy height = false.
Proof.
  intros Hhf Hj w' size width height.
  assert (exec (processImageGeneration env jobId) w
          = push w [ SaveJob jobId (Job.set_status Job.processing j);
                     SaveJob jobId
                       (Job.set_result (placeholder jobId (Job.set_status Job.processing j))
                          (Job.set_status Job.completed
                             (Job.set_status Job.processing j))) ]) as Hrun.
  { unfold exec, processImageGeneration, generation_attempt, Job_findById.
    mrun. rewrite Hj. mrun. rewrite Hhf. mrun. reflexivity. }
  split_and!.
  - by apply during_push.
  - rewrite (during_push _ _ _ Hrun). exact Hrun.
  - unfold w'. by rewrite Hrun.
  - unfold w'. by rewrite Hrun.
  - unfold width, size. destruct (Job.width _) as [n|]; [|done].
    by destruct (Js.falsy n) eqn:E.
  - unfold height, size. destruct (Job.height _) as [n|]; [|done].
    by destruct (Js.falsy n) eqn:E.
Qed.

Lemma placeholder_without_key_witness :
  let w' := exec (processImageGeneration unconfigured_env 0) submitted in
  let j := new_job 0 cat_midjourney in
  during (processImageGeneration unconfigured_env 0) submitted
    = [ SaveJob 0
          (Job.mk (Job.userId j) (Job.prompt j) (Job.negativePrompt j) (Job.model j)
             (Job.parameters j) Job.processing (Job.result j) (Job.error j));
        SaveJob 0
          (Job.mk (Job.userId j) (Job.prompt j) (Job.negativePrompt j) (Job.model j)
             (Job.parameters j) Job.completed
             (Job.mkResult
                [ Job.mkImage "https://picsum.photos/seed/0/1024/1024"
                    (Js.mkNumber false "1024") (Js.mkNumber false "1024") None ]
                (Some 1000) None
                (Some "Add HUGGINGFACE_API_KEY to .env for real generation"))
             (Job.error j)) ]
  ∧ w' = push submitted (during (processImageGeneration unconfigured_env 0) submitted)
  ∧ users (state w') = users (state submitted)
  ∧ transactions (state w') = transactions (state submitted)
  ∧ Js.falsy (Js.mkNumber false "1024") = false
  ∧ Js.falsy (Js.mkNumber false "1024") = false.
Proof.
  apply (placeholder_without_key unconfigured_env submitted 0 (new_job 0 cat_midjourney)).
  - reflexivity.
  - vm_compute. reflexivity.
Defined.


(** X18 (the listing agrees with the price table).  Buying a package
    listed by GET /api/billing/packages, named by its id as a string and
    with a payment method that the ledger can store, adds its credits and
    its bonus to the balance while the sum is below 2^53 in absolute
    value, and appends one purchase entry with the listed price; and
    every package that can be bought is listed. *)
Theorem listed_package_is_sold (w : World) (userId : ObjectId) (u : User.t)
    (body : PurchaseBody) (l : Listing) (paymentMethod : option string) :
  users (state w) !! userId = Some u →
  l ∈ billing_packages →
  pur_packageId body = Js.str (listing_id l) →
  Js.castString (pur_paymentMethod body)
    = match paymentMethod with Some s => Js.cast_to s | None => Js.unset end →
  let granted := listed_credits l + default 0 (listed_bonus l) in
  Z.abs (User.credits u + granted) < 2 ^ 53 →
  let w' := exec (authenticate userId (purchase body)) w in
  eval (authenticate userId (purchase body)) w
    = json 200 (purchased (User.credits u + granted) granted)
  ∧ users (state w')
    = <[userId := User.mk (User.email u) (User.password u) (User.firstName u)
                    (User.lastName u) (User.credits u + granted)]> (users (state w))
  ∧ transactions (state w')
    = transactions (state w)
      ++ [ Transaction.mk userId Transaction.purchase (listed_price l) granted
             ("Purchased " +:+ listing_id l +:+ " package") Transaction.completed
             (Transaction.mkMetadata None (Some (listing_id l)) paymentMethod) ]
  ∧ ∀ packageId pkg, packages packageId = Some pkg →
      ∃ l', l' ∈ billing_packages ∧ listing_id l' = packageId.
Proof.
  intros Hu Hl Hid Hpm granted Hsafe w'. pose proof (packages_listed l Hl) as Hpkg.
  fold granted in Hpkg.
  assert (purchase_entry userId (mkPackage granted (listed_price l)) body
          = Some (Transaction.mk userId Transaction.purchase (listed_price l) granted
                    ("Purchased " +:+ listing_id l +:+ " package")
                    Transaction.completed
                    (Transaction.mkMetadata None (Some (listing_id l)) paymentMethod)))
    as Hentry.
  { unfold purchase_entry, metadata_string. rewrite Hid, Hpm. cbn.
    by destruct paymentMethod. }
  unfold w', exec, eval. rewrite authenticate_run, Hu.
  unfold purchase. rewrite Hid. cbn [Js.toString]. rewrite Hpkg.
  cbn [fst snd credits]. rewrite Hentry, (binary64_exact _ Hsafe). mrun. split_and!.
  - done.
  - by simpl_state.
  - by simpl_state.
  - unfold billing_packages.
    intros packageId pkg [[-> _]|[[-> _]|[-> _]]]%packages_defined; eexists.
    + split; [apply list_elem_of_here|reflexivity].
    + split; [apply list_elem_of_further, list_elem_of_here|reflexivity].
    + split; [do 2 apply list_elem_of_further; apply list_elem_of_here|reflexivity].
Qed.

Lemma listed_package_is_sold_witness :
  let w' := exec (authenticate 0 (purchase pro_pack)) registered_alice in
  eval (authenticate 0 (purchase pro_pack)) registered_alice
    = json 200 (purchased (100 + 220) 220)
  ∧ users (state w')
    = <[0%nat := User.mk "alice@example.org" "secret" "Alice" "Liddell" (100 + 220)]>
        (users (state registered_alice))
  ∧ transactions (state w')
    = transactions (state registered_alice)
      ++ [ Transaction.mk 0 Transaction.purchase 29.99%float 220
             "Purchased pro package" Transaction.completed
             (Transaction.mkMetadata None (Some "pro") (Some "card")) ]
  ∧ ∀ packageId pkg, packages packageId = Some pkg →
      ∃ l', l' ∈ billing_packages ∧ listing_id l' = packageId.
Proof.
  apply (listed_package_is_sold registered_alice 0 (new_user alice) pro_pack
           (mkListing "pro" "Pro Pack" 200 29.99%float true (Some 20)) (Some "card")).
  - vm_compute. reflexivity.
  - unfold billing_packages. set_solver.
  - reflexivity.
  - reflexivity.
  - vm_compute. reflexivity.
Defined.

(** ** API keys *)

Lemma string_length_app (s1 s2 : string) :
  String.length (s1 +:+ s2) = (String.length s1 + String.length s2)%nat.
Proof. induction s1 as [|c s1 IH]; simpl; [done|]. by rewrite IH. Qed.

Lemma string_length_substring (s : string) (n m : nat) :
  String.length (String.substring n m s) = (m `min` (String.length s - n))%nat.
Proof.
  revert n m. induction s as [|c s IH]; intros [|n] [|m];
    cbn [String.substring String.length]; rewrite ?IH; lia.
Qed.

Lemma unhex_hex_byte (b : byte) (s : string) :
  ApiKey.unhex (ApiKey.hex_byte b +:+ s) = (bs ← ApiKey.unhex s; Some (b :: bs)).
Proof. destruct b; reflexivity. Qed.

Lemma unhex_hex (bs : list byte) : ApiKey.unhex (ApiKey.hex bs) = Some bs.
Proof.
  induction bs as [|b bs IH]; [done|].
  cbn [ApiKey.hex]. by rewrite unhex_hex_byte, IH.
Qed.

Lemma hex_length (bs : list byte) :
  String.length (ApiKey.hex bs) = (2 * length bs)%nat.
Proof.
  induction bs as [|b bs IH]; [done|].
  cbn [ApiKey.hex length]. rewrite string_length_app, IH.
  unfold ApiKey.hex_byte. cbn. lia.
Qed.

(** X19 (generated keys).  Different random bytes give different
    keys; a key made from [n] bytes has [3 + 2 n] characters, 67 for the
    32 bytes that the server draws, and begins with sk_. *)
Theorem generateKey_injective (a b : list byte) :
  (ApiKey.generateKey a = ApiKey.generateKey b ↔ a = b)
  ∧ String.length (ApiKey.generateKey a) = (3 + 2 * length a)%nat
  ∧ String.substring 0 3 (ApiKey.generateKey a) = "sk_".
Proof.
  split_and!.
  - split; [|by intros ->]. unfold ApiKey.generateKey. intros Heq.
    injection Heq as Heq. change (ApiKey.hex a = ApiKey.hex b) in Heq.
    assert (ApiKey.unhex (ApiKey.hex a) = ApiKey.unhex (ApiKey.hex b)) as Hun
      by (by rewrite Heq).
    rewrite !unhex_hex in Hun. by injection Hun.
  - unfold ApiKey.generateKey. by rewrite string_length_app, hex_length.
  - unfold ApiKey.generateKey.
    change ("sk_" +:+ ApiKey.hex a)
      with (String "s" (String "k" (String "_" (ApiKey.hex a)))).
    cbn [String.substring]. by destruct (ApiKey.hex a).
Qed.

(** X20 (masked keys).  The masked form of a key of at least twelve
    characters has nineteen: the first twelve of the key, three dots, and
    the last four of the key. *)
Theorem mask_shows_sixteen (key : string) :
  (12 ≤ String.length key)%nat →
  String.length (mask key) = 19%nat
  ∧ (∀ i, (i < 12)%nat → String.get i (mask key) = String.get i key)
  ∧ (∀ i, (12 ≤ i < 15)%nat → String.get i (mask key) = Some "."%char)
  ∧ (∀ i, (i < 4)%nat →
          String.get (15 + i) (mask key) = String.get (String.length key - 4 + i) key).
Proof.
  intros Hlen. unfold mask.
  set (front := String.substring 0 12 key).
  set (back := String.substring (String.length key - 4) (String.length key) key).
  assert (String.length front = 12%nat) as Hfront
    by (unfold front; rewrite string_length_substring; lia).
  assert (String.length back = 4%nat) as Hback
    by (unfold back; rewrite string_length_substring; lia).
  split_and!.
  - rewrite !string_length_app, Hfront, Hback. cbn. lia.
  - intros i Hi. rewrite <- String.append_correct1 by lia.
    unfold front. rewrite String.substring_correct1 by lia. f_equal. lia.
  - intros i Hi. replace i with ((i - 12) + String.length front)%nat by lia.
    rewrite <- String.append_correct2.
    rewrite <- String.append_correct1 by (cbn; lia).
    destruct (i - 12)%nat as [|[|[|n]]] eqn:E; try reflexivity; lia.
  - intros i Hi. replace (15 + i)%nat with ((i + 3) + String.length front)%nat by lia.
    rewrite <- String.append_correct2.
    replace (i + 3)%nat with (i + String.length "...")%nat by (cbn; lia).
    rewrite <- String.append_correct2.
    unfold back. rewrite String.substring_correct1 by lia. f_equal. lia.
Qed.

Lemma mask_shows_sixteen_witness :
  String.length (mask "sk_0123456789abcdefXYZW") = 19%nat
  ∧ (∀ i, (i < 12)%nat →
          String.get i (mask "sk_0123456789abcdefXYZW")
          = String.get i "sk_0123456789abcdefXYZW")
  ∧ (∀ i, (12 ≤ i < 15)%nat →
          String.get i (mask "sk_0123456789abcdefXYZW") = Some "."%char)
  ∧ (∀ i, (i < 4)%nat →
          String.get (15 + i) (mask "sk_0123456789abcdefXYZW")
          = String.get (String.length "sk_0123456789abcdefXYZW" - 4 + i)
              "sk_0123456789abcdefXYZW").
Proof. apply (mask_shows_sixteen "sk_0123456789abcdefXYZW"). vm_compute. lia. Defined.

Lemma newest_first_total : Total newest_first.
Proof. intros a b. unfold newest_first. lia. Qed.

(** X21 (key listing).  GET /api/keys shows the keys of the requester,
    each once, and no key of another user; the newest comes first. *)
Theorem keys_listing (userId : ObjectId) (keys : gmap nat ApiKey.t) :
  ∃ views,
    GET_keys userId keys = sent 200 views
    ∧ Sorted (λ a b, key_createdAt b ≤ key_createdAt a) views
    ∧ NoDup (key_id <$> views)
    ∧ ∀ v, v ∈ views ↔
           ∃ k, keys !! key_id v = Some k ∧ ApiKey.userId k = userId
                ∧ v = key_view (key_id v, k).
Proof.
  eexists. split; [reflexivity|]. split_and!.
  - apply (Sorted_fmap _ newest_first); [done|]. apply (@Sorted_merge_sort _ _ _ newest_first_total).
  - rewrite <- list_fmap_compose.
    rewrite (fmap_Permutation _ _ _ (merge_sort_Permutation _ _)).
    unfold keys_of. eapply NoDup_fmap_fst.
    + intros id k k' Hk Hk'. apply list_elem_of_filter in Hk as [_ Hk].
      apply list_elem_of_filter in Hk' as [_ Hk'].
      apply elem_of_map_to_list in Hk, Hk'. congruence.
    + apply NoDup_filter, NoDup_map_to_list.
  - intros v. rewrite list_elem_of_fmap. split.
    + intros ([id k] & -> & Hin). rewrite merge_sort_Permutation in Hin.
      apply list_elem_of_filter in Hin as [Hu Hin].
      apply elem_of_map_to_list in Hin. by exists k.
    + intros (k & Hk & Hu & Hv). exists (key_id v, k). split; [done|].
      rewrite merge_sort_Permutation. apply list_elem_of_filter. split; [done|].
      by apply elem_of_map_to_list.
Qed.

Lemma key_run_snoc (ops : list KeyOp) (op : KeyOp) :
  key_run (ops ++ [op]) = key_step (key_run ops) op.
Proof. unfold key_run. by rewrite foldl_app. Qed.

Lemma key_run_ind (P : gmap nat ApiKey.t → Prop) :
  P ∅ → (∀ keys op, P keys → P (key_step keys op)) → ∀ ops, P (key_run ops).
Proof.
  intros Hempty Hstep ops. induction ops as [|op ops IH] using rev_ind; [done|].
  rewrite key_run_snoc. by apply Hstep.
Qed.

Lemma ApiKey_findOne_Some id userId keys k :
  ApiKey_findOne id userId keys = Some k ↔
  keys !! id = Some k ∧ ApiKey.userId k = userId.
Proof.
  unfold ApiKey_findOne. destruct (keys !! id) as [k'|]; [|naive_solver].
  case_decide; naive_solver.
Qed.

Lemma key_step_cases (keys : gmap nat ApiKey.t) (op : KeyOp) :
  key_step keys op = keys
  ∨ (∃ userId name randomBytes now,
        op = create_key userId name randomBytes now
        ∧ name ≠ ""
        ∧ keys !! fresh (dom keys) = None
        ∧ (∀ id k, keys !! id = Some k →
                   ApiKey.key k ≠ ApiKey.generateKey randomBytes)
        ∧ key_step keys op
          = <[fresh (dom keys) :=
                ApiKey.mk userId name (ApiKey.generateKey randomBytes) None 0 true now]>
              keys)
  ∨ (∃ userId id k,
        op = delete_key userId id ∧ keys !! id = Some k ∧ ApiKey.userId k = userId
        ∧ key_step keys op = delete id keys)
  ∨ (∃ userId id k,
        op = toggle_key userId id ∧ keys !! id = Some k ∧ ApiKey.userId k = userId
        ∧ key_step keys op
          = <[id := ApiKey.set_isActive (negb (ApiKey.isActive k)) k]> keys).
Proof.
  destruct op as [userId name randomBytes now|userId id|userId id]; cbn.
  - unfold POST_keys. case_decide; [by left|]. case_bool_decide as Hdup; [by left|].
    right; left. exists userId, name, randomBytes, now. split_and!; try done.
    + apply not_elem_of_dom, is_fresh.
    + intros id k Hk Heq. apply Hdup, Exists_exists. exists (id, k).
      split; [|done]. by apply elem_of_map_to_list.
  - unfold DELETE_key. destruct (ApiKey_findOne id userId keys) as [k|] eqn:Hf; [|by left].
    apply ApiKey_findOne_Some in Hf as [Hk Hu].
    right; right; left. by exists userId, id, k.
  - unfold PATCH_toggle. destruct (ApiKey_findOne id userId keys) as [k|] eqn:Hf; [|by left].
    apply ApiKey_findOne_Some in Hf as [Hk Hu].
    right; right; right. by exists userId, id, k.
Qed.

(** X22 (unique keys).  Whatever keys are created, deleted and toggled, no
    two stored keys have the same secret. *)
Theorem key_unique (ops : list KeyOp) (id id' : ObjectId) (k k' : ApiKey.t) :
  key_run ops !! id = Some k →
  key_run ops !! id' = Some k' →
  ApiKey.key k = ApiKey.key k' →
  id = id'.
Proof.
  revert id id' k k'. induction ops as [|op ops IH] using rev_ind.
  { intros id id' k k' Hk. change (key_run []) with (∅ : gmap nat ApiKey.t) in Hk.
    by rewrite lookup_empty in Hk. }
  rewrite key_run_snoc. set (keys := key_run ops) in *. clearbody keys.
  destruct (key_step_cases keys op)
    as [->|[(u & name & bs & now & _ & _ & Hfresh & Hnew & ->)
           |[(u & i & x & _ & Hx & _ & ->)|(u & i & x & _ & Hx & _ & ->)]]];
    [done| | |].
  - set (n := fresh (dom keys)) in *. clearbody n. intros id id' k k'.
    destruct (decide (n = id)) as [<-|Hid], (decide (n = id')) as [<-|Hid'];
      rewrite ?lookup_insert_eq, ?lookup_insert_ne by done; try done.
    + intros [= <-] Hk' Heq. by destruct (Hnew _ _ Hk').
    + intros Hk [= <-] Heq. by destruct (Hnew _ _ Hk).
    + apply IH.
  - intros id id' k k' Hk Hk'.
    apply lookup_delete_Some in Hk as [_ Hk], Hk' as [_ Hk']. by eapply IH.
  - assert (∀ j y, <[i := ApiKey.set_isActive (negb (ApiKey.isActive x)) x]> keys !! j
                   = Some y → ∃ y', keys !! j = Some y' ∧ ApiKey.key y' = ApiKey.key y)
      as Hold.
    { intros j y. destruct (decide (i = j)) as [<-|Hj];
        rewrite ?lookup_insert_eq, ?lookup_insert_ne by done; [|by eauto].
      intros [= <-]. by exists x. }
    intros id id' k k' Hk Hk' Heq.
    apply Hold in Hk as (y & Hy & Ey), Hk' as (y' & Hy' & Ey').
    apply (IH _ _ _ _ Hy Hy'). congruence.
Qed.

Lemma key_unique_witness :
  key_run [ create_key 0 "laptop" ["001"; "002"]%byte 10;
            create_key 1 "phone" ["003"; "004"]%byte 20;
            toggle_key 0 0 ] !! 0%nat
    = Some (ApiKey.mk 0 "laptop" "sk_0102" None 0 false 10)
  ∧ 0%nat = 0%nat.
Proof.
  split; [vm_compute; reflexivity|].
  apply (key_unique [ create_key 0 "laptop" ["001"; "002"]%byte 10;
                      create_key 1 "phone" ["003"; "004"]%byte 20;
                      toggle_key 0 0 ] 0 0
           (ApiKey.mk 0 "laptop" "sk_0102" None 0 false 10)
           (ApiKey.mk 0 "laptop" "sk_0102" None 0 false 10));
    vm_compute; reflexivity.
Defined.

(** X23 (key usage is never recorded).  Whatever keys are created,
    deleted and toggled, every stored key was generated by the server, has
    a name, and has [usageCount] 0 and no [lastUsed]: no handler records
    the use of a key. *)
Theorem keys_never_used (ops : list KeyOp) (id : ObjectId) (k : ApiKey.t) :
  key_run ops !! id = Some k →
  ApiKey.usageCount k = 0 ∧ ApiKey.lastUsed k = None ∧ ApiKey.name k ≠ ""
  ∧ ∃ randomBytes, ApiKey.key k = ApiKey.generateKey randomBytes.
Proof.
  revert id k.
  apply (key_run_ind (λ keys, ∀ id k, keys !! id = Some k →
           ApiKey.usageCount k = 0 ∧ ApiKey.lastUsed k = None ∧ ApiKey.name k ≠ ""
           ∧ ∃ randomBytes, ApiKey.key k = ApiKey.generateKey randomBytes)).
  { intros id k Hk. by rewrite lookup_empty in Hk. }
  intros keys op IH.
  destruct (key_step_cases keys op)
    as [->|[(u & name & bs & now & _ & Hname & _ & _ & ->)
           |[(u & i & x & _ & Hx & _ & ->)|(u & i & x & _ & Hx & _ & ->)]]];
    [done| | |]; intros id k.
  - destruct (decide (fresh (dom keys) = id)) as [<-|Hid];
      rewrite ?lookup_insert_eq, ?lookup_insert_ne by done; [|apply IH].
    intros [= <-]. cbn. split_and!; try done. by exists bs.
  - intros [_ Hk]%lookup_delete_Some. by eapply IH.
  - destruct (decide (i = id)) as [<-|Hid];
      rewrite ?lookup_insert_eq, ?lookup_insert_ne by done; [|apply IH].
    intros [= <-]. apply (IH _ _ Hx).
Qed.

Lemma keys_never_used_witness :
  let k := ApiKey.mk 0 "laptop" "sk_0102" None 0 false 10 in
  ApiKey.usageCount k = 0 ∧ ApiKey.lastUsed k = None ∧ ApiKey.name k ≠ ""
  ∧ ∃ randomBytes, ApiKey.key k = ApiKey.generateKey randomBytes.
Proof.
  apply (keys_never_used [ create_key 0 "laptop" ["001"; "002"]%byte 10;
                           create_key 1 "phone" ["003"; "004"]%byte 20;
                           toggle_key 0 0 ] 0).
  vm_compute. reflexivity.
Defined.

(** X24 (keys of other users).  A request changes no key of another user:
    the keys of everyone but the requester are the same before and after
    it. *)
Theorem keys_isolated (keys : gmap nat ApiKey.t) (op : KeyOp) (id : ObjectId)
    (k : ApiKey.t) :
  ApiKey.userId k ≠ key_actor op →
  key_step keys op !! id = Some k ↔ keys !! id = Some k.
Proof.
  intros Hother.
  destruct (key_step_cases keys op)
    as [->|[(u & name & bs & now & -> & _ & Hfresh & _ & ->)
           |[(u & i & x & -> & Hx & Hu & ->)|(u & i & x & -> & Hx & Hu & ->)]]];
    [done| | |]; cbn in Hother.
  - destruct (decide (fresh (dom keys) = id)) as [<-|Hid];
      rewrite ?lookup_insert_eq, ?lookup_insert_ne by done; [|done].
    rewrite Hfresh. split; [|done]. intros [= <-]. by destruct Hother.
  - rewrite lookup_delete_Some. split; [by intros [_ ?]|]. intros Hk. split; [|done].
    intros <-. rewrite Hx in Hk. injection Hk as <-. by destruct Hother.
  - destruct (decide (i = id)) as [<-|Hid];
      rewrite ?lookup_insert_eq, ?lookup_insert_ne by done; [|done].
    rewrite Hx. split; intros [= <-]; by destruct Hother.
Qed.

Lemma keys_isolated_witness :
  let keys := key_run [ create_key 0 "laptop" ["001"; "002"]%byte 10;
                        create_key 1 "phone" ["003"; "004"]%byte 20 ] in
  let k := ApiKey.mk 1 "phone" "sk_0304" None 0 true 20 in
  key_step keys (delete_key 0 1) !! 1%nat = Some k ↔ keys !! 1%nat = Some k.
Proof.
  apply (keys_isolated
           (key_run [ create_key 0 "laptop" ["001"; "002"]%byte 10;
                      create_key 1 "phone" ["003"; "004"]%byte 20 ])
           (delete_key 0 1) 1 (ApiKey.mk 1 "phone" "sk_0304" None 0 true 20)).
  vm_compute. lia.
Defined.

(** X25 (toggling twice).  Toggling a key answers with the negated flag,
    and toggling it again restores the collection. *)
Theorem toggle_twice (id userId : ObjectId) (keys : gmap nat ApiKey.t) (k : ApiKey.t) :
  ApiKey_findOne id userId keys = Some k →
  ∃ keys',
    PATCH_toggle id userId keys = (sent 200 (negb (ApiKey.isActive k)), keys')
    ∧ keys' !! id = Some (ApiKey.set_isActive (negb (ApiKey.isActive k)) k)
    ∧ PATCH_toggle id userId keys' = (sent 200 (ApiKey.isActive k), keys).
Proof.
  intros Hf. pose proof (proj1 (ApiKey_findOne_Some _ _ _ _) Hf) as [Hk Hu].
  eexists. unfold PATCH_toggle at 1. rewrite Hf. split_and!; [reflexivity| |].
  - apply lookup_insert_eq.
  - unfold PATCH_toggle, ApiKey_findOne. rewrite lookup_insert_eq.
    clear Hf. destruct k as [u n s l c a t].
    cbn [ApiKey.set_isActive ApiKey.userId ApiKey.isActive ApiKey.name ApiKey.key
         ApiKey.lastUsed ApiKey.usageCount ApiKey.createdAt] in *.
    rewrite decide_True by done.
    cbn [ApiKey.set_isActive ApiKey.userId ApiKey.isActive ApiKey.name ApiKey.key
         ApiKey.lastUsed ApiKey.usageCount ApiKey.createdAt].
    rewrite negb_involutive, insert_insert_eq. by rewrite insert_id.
Qed.

Lemma toggle_twice_witness :
  let keys := key_run [ create_key 0 "laptop" ["001"; "002"]%byte 10 ] in
  let k := ApiKey.mk 0 "laptop" "sk_0102" None 0 true 10 in
  ∃ keys',
    PATCH_toggle 0 0 keys = (sent 200 (negb (ApiKey.isActive k)), keys')
    ∧ keys' !! 0%nat = Some (ApiKey.set_isActive (negb (ApiKey.isActive k)) k)
    ∧ PATCH_toggle 0 0 keys' = (sent 200 (ApiKey.isActive k), keys).
Proof.
  apply (toggle_twice 0 0 (key_run [ create_key 0 "laptop" ["001"; "002"]%byte 10 ])
           (ApiKey.mk 0 "laptop" "sk_0102" None 0 true 10)).
  vm_compute. reflexivity.
Defined.

(** X26 (create, then delete).  A created key is stored under the
    announced id, active and unused; its owner can delete it, which
    restores the collection, and nobody else can. *)
Theorem created_key_round_trip (name : string) (randomBytes : list byte) (now : Z)
    (userId : ObjectId) (keys keys' : gmap nat ApiKey.t) (c : CreatedKey) :
  POST_keys name randomBytes now userId keys = (sent 201 c, keys') →
  c = mkCreatedKey (created_id c) name (ApiKey.generateKey randomBytes) now
  ∧ keys !! created_id c = None
  ∧ keys' !! created_id c
    = Some (ApiKey.mk userId name (ApiKey.generateKey randomBytes) None 0 true now)
  ∧ DELETE_key (created_id c) userId keys' = (sent 200 tt, keys)
  ∧ ∀ other, other ≠ userId →
      DELETE_key (created_id c) other keys' = (refused 404 "API key not found", keys').
Proof.
  unfold POST_keys. case_decide; [done|]. case_bool_decide; [done|].
  intros [= <- <-]. cbn [created_id].
  assert (keys !! fresh (dom keys) = None) as Hfresh by apply not_elem_of_dom, is_fresh.
  set (id := fresh (dom keys)) in *. clearbody id.
  split_and!; [done|done|apply lookup_insert_eq| |].
  - unfold DELETE_key, ApiKey_findOne. rewrite lookup_insert_eq. cbn.
    rewrite decide_True by done. by rewrite delete_insert_id.
  - intros other Hother. unfold DELETE_key, ApiKey_findOne. rewrite lookup_insert_eq.
    cbn. by rewrite decide_False by done.
Qed.

Lemma created_key_round_trip_witness :
  let c := mkCreatedKey 0 "laptop" "sk_0102" 10 in
  let keys' : gmap nat ApiKey.t :=
    {[ 0%nat := ApiKey.mk 7 "laptop" "sk_0102" None 0 true 10 ]} in
  c = mkCreatedKey (created_id c) "laptop" (ApiKey.generateKey ["001"; "002"]%byte) 10
  ∧ (∅ : gmap nat ApiKey.t) !! created_id c = None
  ∧ keys' !! created_id c
    = Some (ApiKey.mk 7 "laptop" (ApiKey.generateKey ["001"; "002"]%byte) None 0 true 10)
  ∧ DELETE_key (created_id c) 7 keys' = (sent 200 tt, ∅)
  ∧ ∀ other, other ≠ 7%nat →
      DELETE_key (created_id c) other keys' = (refused 404 "API key not found", keys').
Proof.
  apply (created_key_round_trip "laptop" ["001"; "002"]%byte 10 7 ∅
           {[ 0%nat := ApiKey.mk 7 "laptop" "sk_0102" None 0 true 10 ]}
           (mkCreatedKey 0 "laptop" "sk_0102" 10)).
  vm_compute. reflexivity.
Defined.
